(** * user_list_matcher: the matching run, the column planner and the CSV shim

    A shallow embedding of [user_list_matcher.py].

    - Python [str] values are Rocq strings holding the UTF-8 encoding of the
      text (so the literals of the source can be written as they are).
    - A row is a Python [dict] from column name to cell text: a [gmap].
    - Rows are objects: the lists [full_rows] and [masked_rows] hold
      references into a store of dictionaries, [dict(row)] allocates a new
      dictionary and [new_row[c] = v] updates the store at that reference.
    - The [while] loop of the column planner is run with fuel; the fuel the
      run gives it is shown to be enough.
    - The [csv] module is modelled character by character, as CPython 3.11
      and later have it: the writer's quoting, the reader's state machine
      with its limit on the size of a field, and [DictReader] and
      [DictWriter] on top of them.
    - The machine the program runs on (its files, its codecs, the
      spreadsheet library) is a record the readers and the writer take. *)

From Stdlib Require Import Ascii.
From stdpp Require Import gmap strings list fin_maps pretty.

Local Open Scope string_scope.
Local Open Scope list_scope.
Local Open Scope nat_scope.

(** ** Python strings *)

Module PyStr.

Definition byte_in (lo hi : nat) (c : ascii) : bool :=
  ((lo <=? nat_of_ascii c)%nat && (nat_of_ascii c <=? hi)%nat).

Definition byte_is (n : nat) (c : ascii) : bool := (nat_of_ascii c =? n)%nat.

(** [str.isspace] on one-byte characters: TAB..CR, FS..US and SPACE. *)
Definition isspace1 (c : ascii) : bool := byte_in 9 13 c || byte_in 28 32 c.

(** two-byte whitespace: U+0085 and U+00A0 *)
Definition isspace2 (c1 c2 : ascii) : bool :=
  byte_is 194 c1 && (byte_is 133 c2 || byte_is 160 c2).

(** three-byte whitespace: U+1680, U+2000..U+200A, U+2028, U+2029, U+202F,
    U+205F and U+3000 *)
Definition isspace3 (c1 c2 c3 : ascii) : bool :=
  (byte_is 225 c1 && byte_is 154 c2 && byte_is 128 c3)
  || (byte_is 226 c1 && byte_is 128 c2
      && (byte_in 128 138 c3 || byte_is 168 c3 || byte_is 169 c3 || byte_is 175 c3))
  || (byte_is 226 c1 && byte_is 129 c2 && byte_is 159 c3)
  || (byte_is 227 c1 && byte_is 128 c2 && byte_is 128 c3).

Fixpoint lstrip (s : string) : string :=
  match s with
  | EmptyString => EmptyString
  | String c1 s1 =>
      if isspace1 c1 then lstrip s1 else
      match s1 with
      | String c2 s2 =>
          if isspace2 c1 c2 then lstrip s2 else
          match s2 with
          | String c3 s3 => if isspace3 c1 c2 c3 then lstrip s3 else s
          | EmptyString => s
          end
      | EmptyString => s
      end
  end.

(** The same scan from the other end, on the reversed bytes: the last byte
    of a character comes first. *)
Fixpoint lstrip_rev (s : string) : string :=
  match s with
  | EmptyString => EmptyString
  | String c1 s1 =>
      if isspace1 c1 then lstrip_rev s1 else
      match s1 with
      | String c2 s2 =>
          if isspace2 c2 c1 then lstrip_rev s2 else
          match s2 with
          | String c3 s3 => if isspace3 c3 c2 c1 then lstrip_rev s3 else s
          | EmptyString => s
          end
      | EmptyString => s
      end
  end.

Definition rstrip (s : string) : string := String.rev (lstrip_rev (String.rev s)).

(** [s.strip()] *)
Definition strip (s : string) : string := rstrip (lstrip s).

(** [str(v)] for a value that is a [str] already. *)
Definition str (s : string) : string := s.

(** [if s:] on a string *)
Definition truthy (s : string) : bool := bool_decide (s ≠ "").

End PyStr.

Export PyStr.

(** ** Dictionaries in a store *)

Abbreviation row := (gmap string string).
Abbreviation loc := nat (only parsing).
Abbreviation store := (gmap loc row).

Module Dict.

(** the dictionary a reference points to *)
Definition deref (h : store) (l : loc) : row := default ∅ (h !! l).

(** [d.get(k, dflt)] *)
Definition get (h : store) (l : loc) (k dflt : string) : string :=
  default dflt (deref h l !! k).

(** [d[k] = v] *)
Definition setitem (h : store) (l : loc) (k v : string) : store :=
  <[l := <[k := v]> (deref h l)]> h.

(** [dict(d)]: a new dictionary with the same items *)
Definition copy (h : store) (l : loc) : loc * store :=
  let new := fresh (dom h) in (new, <[new := deref h l]> h).

(** [if d:] for [d] a dictionary or [None] *)
Definition truthy (h : store) (d : option loc) : bool :=
  match d with
  | Some l => bool_decide (deref h l ≠ ∅)
  | None => false
  end.

End Dict.

(** ** The application state the run reads *)

(** One line of the mapping editor: the three Tk variables and the flag
    [_remove_row] clears. *)
Record mapping_row := MappingRow {
  full_var : string;
  masked_var : string;
  mode_var : string;
  active : bool
}.

Record app := App {
  full_headers : list string;
  full_rows : list loc;
  masked_headers : list string;
  masked_rows : list loc;
  mapping_rows : list mapping_row;
  full_key_var : string;
  masked_key_var : string;
  out_fmt_var : string
}.

(** What [_run] has computed when it opens the save dialog. *)
Record run_result := RunResult {
  result_headers : list string;
  col_plan : list (string * string);
  result_rows : list loc;
  matched_count : nat;
  total : nat;
  unmatched : Z
}.

Inductive outcome :=
  | Warned (msg : string)          (* [messagebox.showwarning], then [return] *)
  | Computed (res : run_result)    (* the rows handed to the writer *)
  | OutOfFuel.                     (* the planner's loop did not finish *)

(** ** The lookup table *)

Module Lookup.

(** One round of [for row in self.full_rows]. *)
Definition add (h : store) (full_key : string)
    (lookup : gmap string loc) (row : loc) : gmap string loc :=
  let k := strip (str (Dict.get h row full_key "")) in
  if PyStr.truthy k then <[k := row]> lookup else lookup.

Definition build (h : store) (full_key : string) (rows : list loc)
    : gmap string loc :=
  foldl (add h full_key) ∅ rows.

End Lookup.

(** ** The column planner *)

Module Planner.

Definition NEW_COLUMN : string := "（新增列）".

(** [f"{base}_补全{suffix}"] *)
Definition suffixed (base : string) (suffix : nat) : string :=
  base +:+ "_补全" +:+ pretty suffix.

(** [while write_col in result_headers: ...], at most [fuel] rounds. *)
Fixpoint while_taken (fuel : nat) (result_headers : list string)
    (base write_col : string) (suffix : nat) : option string :=
  if bool_decide (write_col ∈ result_headers) then
    match fuel with
    | O => None
    | S fuel' =>
        while_taken fuel' result_headers base (suffixed base suffix) (S suffix)
    end
  else Some write_col.

Definition plan_state : Type := list string * list (string * string).

(** One round of [for r in active]. *)
Definition step (st : plan_state) (r : mapping_row) : option plan_state :=
  let '(result_headers, col_plan) := st in
  let src_col := full_var r in
  let dst_col := masked_var r in
  let mode := mode_var r in
  if negb (PyStr.truthy src_col) then Some st
  else if bool_decide (dst_col = NEW_COLUMN) || bool_decide (mode = "append") then
    write_col ← while_taken (S (length result_headers)) result_headers
                   src_col src_col 1;
    Some (result_headers ++ [write_col], col_plan ++ [(src_col, write_col)])
  else
    Some (result_headers, col_plan ++ [(src_col, dst_col)]).

Fixpoint steps (st : plan_state) (rs : list mapping_row) : option plan_state :=
  match rs with
  | [] => Some st
  | r :: rs' => st' ← step st r; steps st' rs'
  end.

(** [plan(target_headers, mapping_entries)] *)
Definition plan (masked_headers : list string) (active : list mapping_row)
    : option plan_state :=
  steps (masked_headers, []) active.

End Planner.

(** ** The matching pass *)

Module Matcher.

(** [new_row[write_col] = src.get(src_col, "") if src else ""] *)
Definition write_cell (new_row : loc) (src : option loc)
    (h : store) (p : string * string) : store :=
  let '(src_col, write_col) := p in
  let v := match src with
           | Some s => if Dict.truthy h src then Dict.get h s src_col "" else ""
           | None => ""
           end in
  Dict.setitem h new_row write_col v.

Definition pass_state : Type := store * list loc * nat.

(** One round of [for row in self.masked_rows]. *)
Definition match_row (masked_key : string) (lookup : gmap string loc)
    (col_plan : list (string * string)) (st : pass_state) (row : loc)
    : pass_state :=
  let '(h, result_rows, matched_count) := st in
  let '(new_row, h) := Dict.copy h row in
  let key_val := strip (str (Dict.get h row masked_key "")) in
  let src := lookup !! key_val in
  let matched_count :=
    if Dict.truthy h src then S matched_count else matched_count in
  let h := foldl (write_cell new_row src) h col_plan in
  (h, result_rows ++ [new_row], matched_count).

Definition pass (masked_key : string) (lookup : gmap string loc)
    (col_plan : list (string * string)) (h : store) (rows : list loc)
    : pass_state :=
  foldl (match_row masked_key lookup col_plan) (h, [], 0) rows.

End Matcher.

(** ** [UserListMatcher._run], up to the save dialog *)

Definition _run (a : app) (h : store) : outcome * store :=
  if bool_decide (full_rows a = []) || bool_decide (masked_rows a = []) then
    (Warned "请先导入全量清单和脱敏清单！", h)
  else
    let full_key := strip (full_key_var a) in
    let masked_key := strip (masked_key_var a) in
    if negb (PyStr.truthy full_key) || negb (PyStr.truthy masked_key) then
      (Warned "请选择匹配键列！", h)
    else
      let active_rows := filter (λ r, active r = true) (mapping_rows a) in
      if bool_decide (active_rows = []) then
        (Warned "请至少添加一条列映射关系！", h)
      else
        let lookup := Lookup.build h full_key (full_rows a) in
        match Planner.plan (masked_headers a) active_rows with
        | None => (OutOfFuel, h)
        | Some (result_headers, col_plan) =>
            let '(h', result_rows, matched_count) :=
              Matcher.pass masked_key lookup col_plan h (masked_rows a) in
            let total := length result_rows in
            let unmatched := (Z.of_nat total - Z.of_nat matched_count)%Z in
            (Computed (RunResult result_headers col_plan result_rows
                         matched_count total unmatched), h')
        end.

(** The scenario of the specification: two reference rows, two target rows. *)
Module Scenario.

Definition h0 : store :=
  {[ 0 := {[ "id" := "1"; "name" := "Alice" ]};
     1 := {[ "id" := "2"; "name" := "Bob" ]};
     2 := {[ "uid" := "1"; "dept" := "" ]};
     3 := {[ "uid" := "3"; "dept" := "" ]} ]}.

Definition overwrite_app : app :=
  App ["id"; "name"] [0; 1] ["uid"; "dept"] [2; 3]
      [MappingRow "name" "dept" "overwrite" true] "id" "uid" "csv".

Definition append_app : app :=
  App ["id"; "name"] [0; 1] ["uid"; "dept"; "name"] [2; 3]
      [MappingRow "name" "（新增列）" "overwrite" true;
       MappingRow "name" "dept" "append" true;
       MappingRow "" "dept" "append" true;
       MappingRow "id" "dept" "overwrite" false] " id " "uid" "xlsx".

(** the reference list has the key 1 twice, the later time with blanks *)
Definition h_dup : store :=
  {[ 0 := {[ "id" := "1"; "name" := "Alice" ]};
     1 := {[ "id" := "2"; "name" := "Bob" ]};
     2 := {[ "id" := " 1 "; "name" := "Alicia" ]};
     3 := {[ "uid" := "1"; "dept" := "" ]};
     4 := {[ "uid" := "3"; "dept" := "" ]} ]}.

Definition duplicate_app : app :=
  App ["id"; "name"] [0; 1; 2] ["uid"; "dept"] [3; 4]
      [MappingRow "name" "dept" "overwrite" true] "id" "uid" "csv".

(** two entries write the same column *)
Definition twice_app : app :=
  App ["id"; "name"] [0; 1] ["uid"; "dept"] [2; 3]
      [MappingRow "id" "dept" "overwrite" true;
       MappingRow "name" "dept" "overwrite" true] "id" "uid" "csv".

(** the reference key names no column of the reference rows *)
Definition absent_key_app : app :=
  App ["id"; "name"] [0; 1] ["uid"; "dept"] [2; 3]
      [MappingRow "name" "dept" "overwrite" true] "no" "uid" "csv".

End Scenario.

(** ** Exceptions *)

Inductive exn :=
  | ValueError (msg : string)
  | FileNotFoundError (path : string)     (* an [OSError] *)
  | PermissionError (path : string)       (* an [OSError] *)
  | UnicodeDecodeError
  | CsvError (msg : string)               (* [csv.Error] *)
  | WorkbookError (msg : string).         (* what [load_workbook] raises on a bad file *)

Definition is_OSError (e : exn) : bool :=
  match e with
  | FileNotFoundError _ | PermissionError _ => true
  | _ => false
  end.

Inductive res (A : Type) :=
  | Ok (a : A)
  | Raise (e : exn).
Arguments Ok {A} a.
Arguments Raise {A} e.

Global Instance res_bind : MBind res :=
  λ A B f m, match m with Ok a => f a | Raise e => Raise e end.
Global Instance res_ret : MRet res := λ A a, Ok a.

(** ** The [csv] module, dialect [excel]

    delimiter comma, quotechar the double quote, doublequote, no escapechar,
    lineterminator CR LF, QUOTE_MINIMAL, not strict. *)

Module Csv.

Definition CR : ascii := "013"%char.
Definition LF : ascii := "010"%char.
Definition QUOTE : ascii := "034"%char.
Definition COMMA : ascii := ","%char.

Definition is_newline (c : ascii) : bool :=
  bool_decide (c = CR) || bool_decide (c = LF).

(** *** [csv.writer] *)

Definition special (c : ascii) : bool :=
  bool_decide (c = COMMA) || bool_decide (c = QUOTE) || is_newline c.

Fixpoint needs_quotes (s : string) : bool :=
  match s with
  | EmptyString => false
  | String c s' => special c || needs_quotes s'
  end.

Fixpoint double_quotes (s : string) : string :=
  match s with
  | EmptyString => EmptyString
  | String c s' =>
      if bool_decide (c = QUOTE) then String QUOTE (String QUOTE (double_quotes s'))
      else String c (double_quotes s')
  end.

Definition write_field (s : string) : string :=
  if needs_quotes s then String QUOTE (double_quotes s +:+ String QUOTE "")
  else s.

Fixpoint join_fields (fs : list string) : string :=
  match fs with
  | [] => ""
  | [f] => write_field f
  | f :: fs' => write_field f +:+ String COMMA (join_fields fs')
  end.

(** [writer.writerow(fields)]: the line handed to [f.write].  A record
    that would come out empty although it has a field is written as a
    quoted empty field. *)
Definition writerow (fs : list string) : string :=
  let rec := join_fields fs in
  let rec := if bool_decide (fs ≠ []) && bool_decide (rec = "")
             then String QUOTE (String QUOTE "") else rec in
  rec +:+ String CR (String LF "").

(** *** Lines of a text file opened with [newline=""]

    A line ends after LF, after CR LF, and after a CR that no LF follows;
    the line ends are kept.  The parser is fed the characters of a line
    and then [EOL]; [chars] is that input for a whole text, [None]
    standing for [EOL]; [pending] says that the current line has
    characters. *)
Fixpoint chars (pending : bool) (s : string) : list (option ascii) :=
  match s with
  | EmptyString => if pending then [None] else []
  | String c s' =>
      if bool_decide (c = LF) then Some c :: None :: chars false s'
      else if bool_decide (c = CR) then
        match s' with
        | String c' s'' =>
            if bool_decide (c' = LF)
            then Some c :: Some c' :: None :: chars false s''
            else Some c :: None :: chars false s'
        | EmptyString => [Some c; None]
        end
      else Some c :: chars true s'
  end.

(** *** [csv.reader] *)

Inductive state :=
  | START_RECORD | START_FIELD | IN_FIELD
  | IN_QUOTED_FIELD | QUOTE_IN_QUOTED_FIELD | EAT_CRNL.

Global Instance state_eq_dec : EqDecision state.
Proof. solve_decision. Defined.

(** [field] and [fields] are kept newest first. *)
Record reader := Reader {
  st : state;
  field : string;
  field_len : N;
  fields : list string
}.

Definition parse_reset : reader := Reader START_RECORD "" 0 [].

Definition field_limit : N := 131072.

(** a byte that continues a UTF-8 character *)
Definition continuation (c : ascii) : bool := byte_in 128 191 c.

(** [field_len] counts characters: a continuation byte belongs to the
    character its lead byte started. *)
Definition parse_add_char (r : reader) (c : ascii) : res reader :=
  if continuation c then Ok (Reader (st r) (String c (field r)) (field_len r) (fields r))
  else if (field_limit <=? field_len r)%N then
    Raise (CsvError "field larger than field limit (131072)")
  else Ok (Reader (st r) (String c (field r)) (field_len r + 1) (fields r)).

Definition parse_save_field (r : reader) : reader :=
  Reader (st r) "" 0 (String.rev (field r) :: fields r).

Definition set_state (s : state) (r : reader) : reader :=
  Reader s (field r) (field_len r) (fields r).

Definition end_of_field (c : option ascii) (r : reader) : res reader :=
  Ok (set_state (match c with None => START_RECORD | Some _ => EAT_CRNL end)
                (parse_save_field r)).

Definition at_line_end (c : option ascii) : bool :=
  match c with None => true | Some ch => is_newline ch end.

Definition start_field (r : reader) (c : option ascii) : res reader :=
  match c with
  | None => end_of_field c r
  | Some ch =>
      if is_newline ch then end_of_field c r
      else if bool_decide (ch = QUOTE) then Ok (set_state IN_QUOTED_FIELD r)
      else if bool_decide (ch = COMMA) then Ok (set_state START_FIELD (parse_save_field r))
      else r' ← parse_add_char r ch; Ok (set_state IN_FIELD r')
  end.

(** [parse_process_char]; [None] is [EOL]. *)
Definition parse_process_char (r : reader) (c : option ascii) : res reader :=
  match st r with
  | START_RECORD =>
      match c with
      | None => Ok r
      | Some ch =>
          if is_newline ch then Ok (set_state EAT_CRNL r)
          else start_field (set_state START_FIELD r) c
      end
  | START_FIELD => start_field r c
  | IN_FIELD =>
      match c with
      | None => end_of_field c r
      | Some ch =>
          if is_newline ch then end_of_field c r
          else if bool_decide (ch = COMMA) then Ok (set_state START_FIELD (parse_save_field r))
          else parse_add_char r ch
      end
  | IN_QUOTED_FIELD =>
      match c with
      | None => Ok r
      | Some ch =>
          if bool_decide (ch = QUOTE) then Ok (set_state QUOTE_IN_QUOTED_FIELD r)
          else parse_add_char r ch
      end
  | QUOTE_IN_QUOTED_FIELD =>
      match c with
      | None => end_of_field c r
      | Some ch =>
          if bool_decide (ch = QUOTE) then
            r' ← parse_add_char r ch; Ok (set_state IN_QUOTED_FIELD r')
          else if bool_decide (ch = COMMA) then Ok (set_state START_FIELD (parse_save_field r))
          else if is_newline ch then end_of_field c r
          else r' ← parse_add_char r ch; Ok (set_state IN_FIELD r')
      end
  | EAT_CRNL =>
      match c with
      | None => Ok (set_state START_RECORD r)
      | Some ch =>
          if is_newline ch then Ok r
          else Raise (CsvError "new-line character seen in unquoted field - do you need to open the file with newline=''?")
      end
  end.

(** The records the reader yields, one [__next__] after the other: a
    record is complete when the state after a line is [START_RECORD]; at
    the end of the input a field that was begun is saved. *)
Fixpoint records (r : reader) (cs : list (option ascii)) : res (list (list string)) :=
  match cs with
  | [] =>
      if negb (field_len r =? 0)%N || bool_decide (st r = IN_QUOTED_FIELD)
      then Ok [rev (fields (parse_save_field r))]
      else Ok []
  | c :: cs' =>
      r' ← parse_process_char r c;
      match c with
      | None =>
          if bool_decide (st r' = START_RECORD)
          then rs ← records parse_reset cs'; Ok (rev (fields r') :: rs)
          else records r' cs'
      | Some _ => records r' cs'
      end
  end.

(** [list(csv.reader(f))] for a text [f] *)
Definition read (text : string) : res (list (list string)) :=
  records parse_reset (chars false text).

End Csv.

(** ** [csv.DictReader] and [csv.DictWriter] *)

(** What a dictionary of [DictReader] can hold: [None] (the [restval] of a
    short line), a cell, or the list of the cells beyond the header (under
    the [restkey], which is the key [None]). *)
Inductive pyval :=
  | PNone
  | PStr (s : string)
  | PList (l : list string).

Global Instance pyval_eq_dec : EqDecision pyval.
Proof. solve_decision. Defined.

Abbreviation pyrow := (gmap (option string) pyval).

Module DictReader.

(** [dict(zip(fieldnames, row))] *)
Definition zip_dict (fieldnames row : list string) : pyrow :=
  foldl (λ d p, <[Some p.1 := PStr p.2]> d) ∅ (zip fieldnames row).

(** the dictionary [__next__] builds from a line that is not blank *)
Definition next_dict (fieldnames row : list string) : pyrow :=
  let d := zip_dict fieldnames row in
  let lf := length fieldnames in
  let lr := length row in
  if (lf <? lr)%nat then <[None := PList (drop lf row)]> d
  else if (lr <? lf)%nat then
    foldl (λ d key, <[Some key := PNone]> d) d (drop lr fieldnames)
  else d.

(** [reader.fieldnames] (is [None] for an empty file) and [list(reader)]:
    the first record is the header, blank lines after it are skipped. *)
Definition read (records : list (list string))
    : option (list string) * list pyrow :=
  match records with
  | [] => (None, [])
  | fieldnames :: rest =>
      (Some fieldnames,
       next_dict fieldnames <$> filter (λ row, row ≠ []) rest)
  end.

End DictReader.

Module DictWriter.

(** [_dict_to_list]: [rowdict.get(key, "")] for each field name;
    with [extrasaction="ignore"] other keys are not looked at. *)
Definition dict_to_list (fieldnames : list string) (rowdict : row) : list string :=
  (λ key, default "" (rowdict !! key)) <$> fieldnames.

(** [dict(zip(fieldnames, fieldnames))] *)
Definition header (fieldnames : list string) : row :=
  foldl (λ d key, <[key := key]> d) ∅ fieldnames.

Definition writeheader (fieldnames : list string) : string :=
  Csv.writerow (dict_to_list fieldnames (header fieldnames)).

Fixpoint writerows (fieldnames : list string) (rows : list row) : string :=
  match rows with
  | [] => ""
  | r :: rows' =>
      Csv.writerow (dict_to_list fieldnames r) +:+ writerows fieldnames rows'
  end.

End DictWriter.

(** ** Files, encodings and the spreadsheet library *)

Inductive encoding := utf_8_sig | utf_8 | gbk | gb2312 | latin_1.

Inductive file :=
  | Bytes (content : string)
  | Unreadable.

(** a cell of a worksheet read with [values_only=True] *)
Inductive xl_value :=
  | XlStr (s : string)
  | XlInt (z : Z)
  | XlBool (b : bool)
  | XlOther (text : string).    (* a float, a date: given by its [str] *)

Definition str_xl (v : xl_value) : string :=
  match v with
  | XlStr s => s
  | XlInt z => pretty z
  | XlBool b => if b then "True" else "False"
  | XlOther t => t
  end.

Abbreviation sheet := (list (list (option xl_value))).

(** The machine the program runs on. *)
Record world := World {
  files : gmap string file;
  writable : string → bool;
  windows : bool;                                  (* [os.path] is [ntpath] *)
  decode : encoding → string → option string;      (* the codecs *)
  openpyxl : option (string → res sheet)           (* [None]: the import fails *)
}.

Module OsPath.

Definition is_sep (win : bool) (c : ascii) : bool :=
  bool_decide (c = "/"%char) || (win && bool_decide (c = "\"%char)).

(** the last component of a path, taken from the reversed path *)
Fixpoint basename_rev (win : bool) (p : string) : string :=
  match p with
  | EmptyString => EmptyString
  | String c p' => if is_sep win c then EmptyString else String c (basename_rev win p')
  end.

Fixpoint only_dots (s : string) : bool :=
  match s with
  | EmptyString => true
  | String c s' => bool_decide (c = "."%char) && only_dots s'
  end.

(** On the reversed name: the extension starts at the last dot, unless
    only dots (or nothing) come before it. *)
Fixpoint ext_rev (b : string) : string :=
  match b with
  | EmptyString => EmptyString
  | String c b' =>
      if bool_decide (c = "."%char)
      then (if only_dots b' then EmptyString else String c EmptyString)
      else match ext_rev b' with
           | EmptyString => EmptyString
           | e => String c e
           end
  end.

(** [os.path.splitext(path)[1]] *)
Definition splitext_ext (win : bool) (path : string) : string :=
  String.rev (ext_rev (basename_rev win (String.rev path))).

Definition lower_ascii (c : ascii) : ascii :=
  if byte_in 65 90 c then ascii_of_nat (nat_of_ascii c + 32) else c.

(** [s.lower()], on the letters A..Z (which is all the comparison with
    the four extensions can see) *)
Fixpoint lower (s : string) : string :=
  match s with
  | EmptyString => EmptyString
  | String c s' => String (lower_ascii c) (lower s')
  end.

End OsPath.

(** [open(path, newline="", encoding=enc)] and reading it to the end *)
Definition open_read (w : world) (path : string) (enc : encoding) : res string :=
  match files w !! path with
  | None => Raise (FileNotFoundError path)
  | Some Unreadable => Raise (PermissionError path)
  | Some (Bytes b) =>
      match decode w enc b with
      | Some text => Ok text
      | None => Raise UnicodeDecodeError
      end
  end.

(** the byte order mark, EF BB BF *)
Definition BOM : string := String "239" (String "187" (String "191" "")).

(** [open(path, "w", newline="", encoding="utf-8-sig")], [f.write(text)]
    and closing *)
Definition open_write (w : world) (path text : string) : res world :=
  if writable w path then
    Ok (World (<[path := Bytes (BOM +:+ text)]> (files w)) (writable w)
              (windows w) (decode w) (openpyxl w))
  else Raise (PermissionError path).

(** ** The readers and the CSV writer *)

(** [v or ""] *)
Definition or_empty (v : pyval) : pyval :=
  match v with
  | PNone => PStr ""
  | PStr s => if PyStr.truthy s then PStr s else PStr ""
  | PList l => if bool_decide (l = []) then PStr "" else PList l
  end.

Definition encoding_error : exn :=
  ValueError "无法识别 CSV 文件编码，请另存为 UTF-8 格式后重试。".

(** the body of the [try] in [_read_csv] *)
Definition read_csv_as (w : world) (path : string) (enc : encoding)
    : res (list string * list pyrow) :=
  text ← open_read w path enc;
  records ← Csv.read text;
  let '(fieldnames, rows) := DictReader.read records in
  let headers := default [] fieldnames in
  let rows := (λ r : pyrow, or_empty <$> r) <$> rows in
  Ok (headers, rows).

(** [for enc in ...: try: ... except (UnicodeDecodeError, Exception): continue] *)
Fixpoint try_encodings (w : world) (path : string) (encs : list encoding)
    : res (list string * list pyrow) :=
  match encs with
  | [] => Raise encoding_error
  | enc :: encs' =>
      match read_csv_as w path enc with
      | Ok r => Ok r
      | Raise _ => try_encodings w path encs'
      end
  end.

Definition _read_csv (w : world) (path : string) : res (list string * list pyrow) :=
  try_encodings w path [utf_8_sig; utf_8; gbk; gb2312; latin_1].

(** [str(c) if c is not None else ""] *)
Definition cell_text (c : option xl_value) : string :=
  match c with
  | Some v => str_xl v
  | None => ""
  end.

Definition xlsx_row (headers : list string) (raw : list (option xl_value)) : row :=
  foldl (λ (d : row) (p : nat * string),
           <[p.2 := cell_text (mjoin (raw !! p.1))]> d)
        ∅ (imap pair headers).

Definition _read_xlsx (w : world) (path : string) : res (list string * list row) :=
  match openpyxl w with
  | None => Ok ([], [])
  | Some load_workbook =>
      rows_iter ← load_workbook path;
      let headers := cell_text <$> hd [] rows_iter in
      Ok (headers, xlsx_row headers <$> tl rows_iter)
  end.

Definition to_pyrow (r : row) : pyrow := kmap Some (PStr <$> r).

Definition read_file (w : world) (path : string) : res (list string * list pyrow) :=
  let ext := OsPath.lower (OsPath.splitext_ext (windows w) path) in
  if bool_decide (ext = ".csv") then _read_csv w path
  else if bool_decide (ext ∈ [".xlsx"; ".xls"; ".xlsm"]) then
    match _read_xlsx w path with
    | Ok (headers, rows) => Ok (headers, to_pyrow <$> rows)
    | Raise e => Raise e
    end
  else Raise (ValueError ("不支持的文件格式：" +:+ ext)).

Definition csv_text (headers : list string) (rows : list row) : string :=
  DictWriter.writeheader headers +:+ DictWriter.writerows headers rows.

Definition write_csv (w : world) (path : string) (headers : list string)
    (rows : list row) : res world :=
  open_write w path (csv_text headers rows).

(** ** What the run is compared with *)

Module Spec.

(** the trimmed key text of a stored row *)
Definition key_of (h : store) (key : string) (l : loc) : string :=
  strip (str (Dict.get h l key "")).

(** some reference row has the trimmed key [k], and [k] is not empty *)
Definition has_match (h : store) (full_key : string) (full_rows : list loc)
    (k : string) : Prop :=
  k ≠ "" ∧ Exists (λ rl, key_of h full_key rl = k) full_rows.

Global Instance has_match_dec h full_key full_rows k :
  Decision (has_match h full_key full_rows k).
Proof. unfold has_match. apply _. Defined.

(** the value a plan entry writes *)
Definition cell_value (src : option row) (src_col : string) : string :=
  match src with
  | Some r => default "" (r !! src_col)
  | None => ""
  end.

(** a copy of the target row with the plan's columns written in order *)
Definition output_row (target : row) (src : option row)
    (plan : list (string * string)) : row :=
  foldl (λ d p, <[p.2 := cell_value src p.1]> d) target plan.

(** the dictionary [src] stands for when it is truthy *)
Definition resolve (h : store) (src : option loc) : option row :=
  match src with
  | Some l => if bool_decide (Dict.deref h l ≠ ∅) then Some (Dict.deref h l) else None
  | None => None
  end.

(** the reference row a trimmed key finds *)
Definition source_row (h : store) (full_key : string) (full_rows : list loc)
    (key_val : string) : option row :=
  resolve h (Lookup.build h full_key full_rows !! key_val).

(** the row the pass makes from a target row *)
Definition made (masked_key : string) (lookup : gmap string loc)
    (col_plan : list (string * string)) (h : store) (tl : loc) : row :=
  output_row (Dict.deref h tl)
             (resolve h (lookup !! key_of h masked_key tl)) col_plan.

(** the target row finds a reference row *)
Definition found (masked_key : string) (lookup : gmap string loc)
    (h : store) (tl : loc) : Prop :=
  is_Some (resolve h (lookup !! key_of h masked_key tl)).

Global Instance found_dec masked_key lookup h tl :
  Decision (found masked_key lookup h tl).
Proof. unfold found. apply _. Defined.

(** every reference of the list points to a dictionary *)
Definition allocated (h : store) (ls : list loc) : Prop :=
  Forall (λ l, is_Some (h !! l)) ls.

(** what [_run] asks for before it starts: both lists loaded, both keys
    chosen, a mapping line that was not removed *)
Definition ready (a : app) : Prop :=
  full_rows a ≠ [] ∧ masked_rows a ≠ [] ∧
  strip (full_key_var a) ≠ "" ∧ strip (masked_key_var a) ≠ "" ∧
  Exists (λ r, active r = true) (mapping_rows a).

(** an entry that adds a column *)
Definition appends (r : mapping_row) : bool :=
  bool_decide (masked_var r = Planner.NEW_COLUMN) || bool_decide (mode_var r = "append").

(** what a byte adds to the reader's count of characters *)
Definition weight (c : ascii) : N := if Csv.continuation c then 0 else 1.

(** the number of characters of a text: the bytes that start one *)
Fixpoint char_len (s : string) : N :=
  match s with
  | EmptyString => 0
  | String c s' => weight c + char_len s'
  end.

(** the line of a text file ends after [c] when [s] is what follows *)
Definition ends_line (c : ascii) (s : string) : bool :=
  bool_decide (c = Csv.LF)
  || (bool_decide (c = Csv.CR)
      && match s with
         | String c' _ => negb (bool_decide (c' = Csv.LF))
         | EmptyString => true
         end).

(** the text [csv.writer] writes for a list of records *)
Fixpoint written (recs : list (list string)) : string :=
  match recs with
  | [] => ""
  | fs :: recs' => Csv.writerow fs +:+ written recs'
  end.

(** a text the reader's field limit lets through *)
Definition fits (s : string) : Prop := (char_len s ≤ Csv.field_limit)%N.

Global Instance fits_dec s : Decision (fits s).
Proof. unfold fits. apply _. Defined.

(** Writing the dataset to [path] and reading [path] back gives the same
    headers and as many rows, and every row read has, for each header, the
    text of the row written (the empty text where that row has none). *)
Definition round_trips (w : world) (path : string) (headers : list string)
    (rows : list row) : Prop :=
  ∃ w' rows',
    write_csv w path headers rows = Ok w' ∧
    _read_csv w' path = Ok (headers, rows') ∧
    length rows' = length rows ∧
    ∀ i r r' h, rows !! i = Some r → rows' !! i = Some r' → h ∈ headers →
      (r' : pyrow) !! Some h = Some (PStr (default "" (r !! h))).

(** what reading [path] gives once the dataset was written to it *)
Definition written_then_read (w : world) (path : string) (headers : list string)
    (rows : list row) : res (list string * list pyrow) :=
  match write_csv w path headers rows with
  | Ok w' => _read_csv w' path
  | Raise e => Raise e
  end.

End Spec.

(** ** A machine to run the examples on *)

Module Codec.

Definition cont := Csv.continuation.

Definition lead3 (c1 c2 : ascii) : bool :=
  (byte_is 224 c1 && byte_in 160 191 c2)
  || (byte_in 225 236 c1 && cont c2)
  || (byte_is 237 c1 && byte_in 128 159 c2)
  || (byte_in 238 239 c1 && cont c2).

Definition lead4 (c1 c2 : ascii) : bool :=
  (byte_is 240 c1 && byte_in 144 191 c2)
  || (byte_in 241 243 c1 && cont c2)
  || (byte_is 244 c1 && byte_in 128 143 c2).

(** well-formed UTF-8 *)
Fixpoint utf8_valid (s : string) : bool :=
  match s with
  | EmptyString => true
  | String c1 s1 =>
      if byte_in 0 127 c1 then utf8_valid s1 else
      match s1 with
      | String c2 s2 =>
          if byte_in 194 223 c1 && cont c2 then utf8_valid s2 else
          match s2 with
          | String c3 s3 =>
              if lead3 c1 c2 && cont c3 then utf8_valid s3 else
              match s3 with
              | String c4 s4 =>
                  if lead4 c1 c2 && cont c3 && cont c4 then utf8_valid s4 else false
              | EmptyString => false
              end
          | EmptyString => false
          end
      | EmptyString => false
      end
  end.

Definition decode_utf_8 (b : string) : option string :=
  if utf8_valid b then Some b else None.

Definition strip_bom (b : string) : string :=
  match b with
  | String c1 (String c2 (String c3 b')) =>
      if byte_is 239 c1 && byte_is 187 c2 && byte_is 191 c3 then b' else b
  | _ => b
  end.

Definition decode_utf_8_sig (b : string) : option string :=
  decode_utf_8 (strip_bom b).

(** every byte is a character of Latin-1 *)
Fixpoint decode_latin_1 (b : string) : string :=
  match b with
  | EmptyString => EmptyString
  | String c b' =>
      let n := nat_of_ascii c in
      if (n <? 128)%nat then String c (decode_latin_1 b')
      else String (ascii_of_nat (192 + n / 64))
             (String (ascii_of_nat (128 + n mod 64)) (decode_latin_1 b'))
  end.

Fixpoint all_ascii (b : string) : bool :=
  match b with
  | EmptyString => true
  | String c b' => byte_in 0 127 c && all_ascii b'
  end.

(** The two-byte tables of GBK and GB2312 are left out: of these two
    the example machine decodes the one-byte range only. *)
Definition decode_one_byte (b : string) : option string :=
  if all_ascii b then Some b else None.

Definition decode (enc : encoding) (b : string) : option string :=
  match enc with
  | utf_8_sig => decode_utf_8_sig b
  | utf_8 => decode_utf_8 b
  | gbk | gb2312 => decode_one_byte b
  | latin_1 => Some (decode_latin_1 b)
  end.

End Codec.

Module Example.

(** a Windows machine with the given files and workbooks *)
Definition machine (fs : gmap string file) (books : gmap string sheet) : world :=
  World fs (λ _, true) true Codec.decode
        (Some (λ path, match books !! path with
                       | Some sh => Ok sh
                       | None => Raise (FileNotFoundError path)
                       end)).

Definition empty_machine : world := machine ∅ ∅.

Definition CRLF : string := String Csv.CR (String Csv.LF "").

(** a line with more cells than the header *)
Definition long_line_csv : string := "a" +:+ CRLF +:+ "1,2" +:+ CRLF.

(** a cell of 131073 characters *)
Definition big_cell : string := N.iter 131073 (String "x"%char) "".

(** rows with a comma, a quote, line ends and a missing cell *)
Definition sample_rows : list row :=
  [ {[ "户号" := "001"; "name" := "Li, Lei"; "note" := String Csv.QUOTE "x" ]};
    {[ "户号" := "002"; "note" := "two" +:+ CRLF +:+ "lines" +:+ String Csv.CR "" ]};
    {[ "name" := "" ; "other" := "dropped" ]} ].

End Example.


(** ** The mapping editor *)

Module Editor.

Definition with_mapping_rows (a : app) (rs : list mapping_row) : app :=
  App (full_headers a) (full_rows a) (masked_headers a) (masked_rows a) rs
      (full_key_var a) (masked_key_var a) (out_fmt_var a).

(** what the source box of a new line shows: [full_cb.current(0)] picks the
    first reference header when there is one, and the [StringVar] keeps its
    empty text otherwise *)
Definition first_header (a : app) : string :=
  match full_headers a with
  | h :: _ => h
  | [] => ""
  end.

(** [_add_mapping_row]: a line with the defaults of its three variables *)
Definition _add_mapping_row (a : app) : app :=
  with_mapping_rows a
    (mapping_rows a ++ [MappingRow (first_header a) "（新增列）" "overwrite" true]).

(** [self.mapping_rows[idx]["active"] = False] *)
Definition deactivate (r : mapping_row) : mapping_row :=
  MappingRow (full_var r) (masked_var r) (mode_var r) false.

(** [_remove_row(frame, idx)] *)
Definition _remove_row (idx : nat) (a : app) : app :=
  if idx <? length (mapping_rows a)
  then with_mapping_rows a (alter deactivate idx (mapping_rows a))
  else a.

End Editor.

(** ** More of what the code is compared with *)

Module Shape.

(** the entries the planner does not skip *)
Definition with_source (rs : list mapping_row) : list mapping_row :=
  filter (λ r, full_var r ≠ "") rs.

(** the columns added by the entries that append, read off the plan: the
    write column of each pair that stands for such an entry *)
Definition new_columns (entries : list mapping_row)
    (plan : list (string * string)) : list string :=
  omap (λ rp : mapping_row * (string * string),
          if Spec.appends rp.1 then Some rp.2.2 else None)
       (zip entries plan).

(** a written row as it is read back: a text for each header, nothing else *)
Definition projection (headers : list string) (r : row) : pyrow :=
  foldl (λ (d : pyrow) key, <[Some key := PStr (default "" (r !! key))]> d)
        ∅ headers.

(** a worksheet: a header line with an empty cell and a number, a short
    line and a long line *)
Definition sample_sheet : sheet :=
  [ [Some (XlStr "户号"); None; Some (XlInt 7)];
    [Some (XlStr "001")];
    [Some (XlInt 2); Some (XlBool true); None; Some (XlStr "beyond")] ].

Definition sample_machine : world :=
  Example.machine {[ "C:\in\short.csv" := Bytes ("a,b" +:+ Example.CRLF +:+ "1" +:+ Example.CRLF) ]}
                  {[ "C:\in\masked.xlsx" := sample_sheet ]}.

End Shape.

(** * Facts *)

(** ** Trimming, on examples *)

Example strip_ascii : strip "  a b	" = "a b".
Proof. reflexivity. Qed.

Example strip_ideographic_space : strip "　张 三　 " = "张 三".
Proof. reflexivity. Qed.

Example strip_blank : strip " 	 " = "".
Proof. reflexivity. Qed.

(** ** The column planner *)

Section planner.

Import Planner.

Lemma suffixed_inj base : Inj (=) (=) (suffixed base).
Proof.
  intros n m H. unfold suffixed in H.
  do 2 apply (inj (String.append _)) in H.
  by apply (inj pretty) in H.
Qed.

(** What the loop returns, and what it has seen when it gives up. *)
Lemma while_taken_spec fuel hs base wc suffix :
  match while_taken fuel hs base wc suffix with
  | Some w =>
      (w ∉ hs) ∧
      (w = wc ∨
       (wc ∈ hs ∧ ∃ n, suffix ≤ n < suffix + fuel ∧ w = suffixed base n ∧
                       ∀ k, suffix ≤ k < n → suffixed base k ∈ hs))
  | None => wc ∈ hs ∧ ∀ k, suffix ≤ k < suffix + fuel → suffixed base k ∈ hs
  end.
Proof.
  revert wc suffix. induction fuel as [|fuel IH]; intros wc suffix; simpl.
  - case_bool_decide as Hin; [split; [done | lia] | by split; [|left]].
  - case_bool_decide as Hin; [| by split; [|left]].
    specialize (IH (suffixed base suffix) (S suffix)).
    destruct (while_taken fuel hs base (suffixed base suffix) (S suffix)) as [w|].
    + destruct IH as [Hw [-> | (Hs & n & Hn & -> & Hk)]]; split; try done; right;
        (split; [done|]).
      * exists suffix. repeat split; [lia | lia | intros k ?; lia].
      * exists n. repeat split; [lia | lia |].
        intros k Hk'. destruct (decide (k = suffix)) as [-> | ?]; [done |].
        apply Hk. lia.
    + destruct IH as [Hs Hk]. split; [done |].
      intros k Hk'. destruct (decide (k = suffix)) as [-> | ?]; [done |].
      apply Hk. lia.
Qed.

(** A header list cannot hold more suffixed names than it is long. *)
Lemma suffixed_run_bounded hs base suffix n :
  (∀ k, suffix ≤ k < suffix + n → suffixed base k ∈ hs) → n ≤ length hs.
Proof.
  intros Hall.
  assert (Hnd : NoDup (suffixed base <$> seq suffix n)).
  { apply (NoDup_fmap_2 _), NoDup_seq. }
  assert (Hsub : suffixed base <$> seq suffix n ⊆+ hs).
  { apply NoDup_submseteq; [done |].
    intros x (k & -> & Hk)%list_elem_of_fmap. apply elem_of_seq in Hk.
    apply Hall. lia. }
  apply submseteq_length in Hsub. by rewrite length_fmap, length_seq in Hsub.
Qed.

(** The fuel [step] gives the loop is enough. *)
Lemma while_taken_total hs base :
  is_Some (while_taken (S (length hs)) hs base base 1).
Proof.
  pose proof (while_taken_spec (S (length hs)) hs base base 1) as H.
  destruct (while_taken _ _ _ _ _); [by eexists |].
  destruct H as [_ H]. apply suffixed_run_bounded in H. lia.
Qed.

Lemma step_total st r : is_Some (step st r).
Proof.
  destruct st as [hs plan]. unfold step.
  destruct (negb _); [by eexists |].
  destruct (_ || _); [| by eexists].
  destruct (while_taken_total hs (full_var r)) as [w ->]. by eexists.
Qed.

Lemma steps_total rs : ∀ st, is_Some (steps st rs).
Proof.
  induction rs as [|r rs IH]; intros st; simpl; [by eexists |].
  destruct (step_total st r) as [st' ->]. simpl. apply IH.
Qed.

Lemma steps_app rs1 rs2 st :
  steps st (rs1 ++ rs2) = st' ← steps st rs1; steps st' rs2.
Proof.
  revert st. induction rs1 as [|r rs1 IH]; intros st; simpl; [done |].
  destruct (step st r) as [st'|]; simpl; [apply IH | done].
Qed.

(** An entry without a source column changes nothing. *)
Lemma step_inert hs plan r :
  full_var r = "" → step (hs, plan) r = Some (hs, plan).
Proof. intros H. unfold step. by rewrite H. Qed.

(** An entry that overwrites uses the destination as it is. *)
Lemma step_overwrite hs plan r :
  full_var r ≠ "" → Spec.appends r = false →
  step (hs, plan) r = Some (hs, plan ++ [(full_var r, masked_var r)]).
Proof.
  intros Hsrc Happ. unfold step, PyStr.truthy. unfold Spec.appends in Happ.
  rewrite bool_decide_true by done. simpl. by rewrite Happ.
Qed.

(** An entry that appends: the column it resolves to. *)
Lemma step_append hs plan r :
  full_var r ≠ "" → Spec.appends r = true →
  ∃ w, step (hs, plan) r = Some (hs ++ [w], plan ++ [(full_var r, w)]) ∧
       (w ∉ hs) ∧
       (full_var r ∉ hs → w = full_var r) ∧
       (full_var r ∈ hs →
        ∃ n, 1 ≤ n ∧ w = suffixed (full_var r) n ∧
             ∀ k, 1 ≤ k < n → suffixed (full_var r) k ∈ hs).
Proof.
  intros Hsrc Happ. unfold step, PyStr.truthy. unfold Spec.appends in Happ.
  rewrite bool_decide_true by done. cbn [negb]. rewrite Happ.
  pose proof (while_taken_spec (S (length hs)) hs (full_var r) (full_var r) 1) as H.
  destruct (while_taken_total hs (full_var r)) as [w Hw]. rewrite Hw in H |- *.
  exists w. destruct H as [Hnew H]. repeat split; [done | |].
  - intros Hnin. destruct H as [-> | [Hin _]]; done.
  - intros Hin. destruct H as [-> | (_ & n & Hn & -> & Hk)]; [done |].
    exists n. repeat split; [lia | done].
Qed.

End planner.

(** ** The lookup table *)

Section lookup.

Import Lookup Spec.

Variables (h : store) (full_key : string).

Lemma build_snoc rows l :
  build h full_key (rows ++ [l]) = add h full_key (build h full_key rows) l.
Proof. unfold build. by rewrite foldl_snoc. Qed.

Lemma add_lookup lookup l k :
  add h full_key lookup l !! k =
  if decide (key_of h full_key l = k ∧ k ≠ "") then Some l else lookup !! k.
Proof.
  unfold add, PyStr.truthy.
  change (strip (str (Dict.get h l full_key ""))) with (key_of h full_key l).
  generalize (key_of h full_key l) as kx. intros kx.
  case_bool_decide as Hk; case_decide as Hd.
  - destruct Hd as [<- _]. by rewrite lookup_insert_eq.
  - rewrite lookup_insert_ne; [done |]. intros <-. by apply Hd.
  - destruct Hd as [<- Hne]. by destruct Hk.
  - done.
Qed.

(** The table holds, for a key, the last row that has it. *)
Lemma build_lookup_Some rows k l :
  build h full_key rows !! k = Some l ↔
  k ≠ "" ∧ ∃ l1 l2, rows = l1 ++ l :: l2 ∧ key_of h full_key l = k ∧
                    Forall (λ l', key_of h full_key l' ≠ k) l2.
Proof.
  induction rows as [|x rows IH] using rev_ind.
  - change (build h full_key []) with (∅ : gmap string loc).
    split; [by rewrite lookup_empty |].
    intros (_ & l1 & l2 & Heq & _). by destruct l1.
  - rewrite build_snoc, add_lookup. case_decide as Hd.
    + destruct Hd as [Hx Hne]. split.
      * intros [= ->]. split; [done |]. by exists rows, [].
      * intros (_ & l1 & l2 & Heq & Hl & Hall).
        destruct l2 as [|y l2 _] using rev_ind.
        -- apply (app_inj_tail rows l1 x l) in Heq as [_ ->]. done.
        -- rewrite app_comm_cons, app_assoc in Heq.
           apply app_inj_tail in Heq as [_ ->].
           apply Forall_app in Hall as [_ Hy]. rewrite Forall_singleton in Hy. by destruct Hy.
    + rewrite IH. split.
      * intros (Hne & l1 & l2 & -> & Hl & Hall). split; [done |].
        exists l1, (l2 ++ [x]). split; [by rewrite <- app_assoc |].
        split; [done |]. apply Forall_app. split; [done |].
        apply Forall_singleton. intros Hx. by apply Hd.
      * intros (Hne & l1 & l2 & Heq & Hl & Hall). split; [done |].
        destruct l2 as [|y l2 _] using rev_ind.
        -- apply (app_inj_tail rows l1 x l) in Heq as [_ ->]. by destruct Hd.
        -- rewrite app_comm_cons, app_assoc in Heq.
           apply app_inj_tail in Heq as [-> ->].
           apply Forall_app in Hall as [Hall _]. by exists l1, l2.
Qed.

Lemma build_is_Some rows k :
  is_Some (build h full_key rows !! k) ↔ has_match h full_key rows k.
Proof.
  unfold has_match. induction rows as [|x rows IH] using rev_ind.
  - change (build h full_key []) with (∅ : gmap string loc).
    rewrite lookup_empty, Exists_nil. split; [by intros [? ?] | by intros [_ []]].
  - rewrite build_snoc, add_lookup, Exists_app, Exists_cons, Exists_nil.
    case_decide as Hd.
    + split; [intros _ | by eexists]. destruct Hd. split; [done |]. right. by left.
    + rewrite IH. split; [intros [? ?]; split; [done | by left] |].
      intros [Hne [Hex | [Hx | []]]]; [done |]. by destruct Hd.
Qed.

Lemma build_lookup_elem rows k l :
  build h full_key rows !! k = Some l →
  l ∈ rows ∧ key_of h full_key l = k ∧ k ≠ "".
Proof.
  intros (Hne & l1 & l2 & -> & Hl & _)%build_lookup_Some.
  split; [| done]. apply elem_of_app. right. by left.
Qed.

(** A row that has a key text is not the empty dictionary. *)
Lemma keyed_row_nonempty key l :
  key_of h key l ≠ "" → Dict.deref h l ≠ ∅.
Proof.
  intros Hk Hempty. apply Hk. unfold key_of, Dict.get.
  by rewrite Hempty, lookup_empty.
Qed.

(** So [if src:] asks whether the key was found. *)
Lemma source_row_found rows k l :
  build h full_key rows !! k = Some l →
  source_row h full_key rows k = Some (Dict.deref h l).
Proof.
  intros Hl. unfold source_row, resolve. rewrite Hl.
  apply build_lookup_elem in Hl as (_ & Hk & Hne).
  rewrite bool_decide_true; [done |].
  apply (keyed_row_nonempty full_key). by rewrite Hk.
Qed.

Lemma source_row_is_Some rows k :
  is_Some (source_row h full_key rows k) ↔ has_match h full_key rows k.
Proof.
  rewrite <- build_is_Some. split.
  - intros [r Hr]. unfold source_row, resolve in Hr.
    destruct (build h full_key rows !! k); [by eexists | done].
  - intros [l Hl]. rewrite (source_row_found _ _ _ Hl). by eexists.
Qed.

End lookup.

(** ** The matching pass *)

Section matcher.

Import Matcher Spec.

Lemma deref_insert (h : store) l d l' :
  Dict.deref (<[l := d]> h) l' = if decide (l = l') then d else Dict.deref h l'.
Proof.
  unfold Dict.deref. case_decide as Hd.
  - subst. by rewrite lookup_insert_eq.
  - by rewrite lookup_insert_ne.
Qed.

Lemma deref_weaken (h h' : store) l :
  h ⊆ h' → is_Some (h !! l) → Dict.deref h' l = Dict.deref h l.
Proof.
  intros Hsub [d Hd]. unfold Dict.deref.
  by rewrite (lookup_weaken _ _ _ _ Hd Hsub), Hd.
Qed.

Lemma resolve_insert (h : store) new d src :
  (∀ l, src = Some l → l ≠ new) →
  resolve (<[new := d]> h) src = resolve h src.
Proof.
  intros Hne. destruct src as [l|]; [| done]. simpl.
  rewrite deref_insert. rewrite decide_False; [done |].
  intros ->. by apply (Hne l).
Qed.

Lemma truthy_resolve (h : store) src :
  Dict.truthy h src = true ↔ is_Some (resolve h src).
Proof.
  unfold Dict.truthy, resolve. destruct src as [l|].
  - destruct (bool_decide (Dict.deref h l ≠ ∅)); split; try done; try (by eexists);
      try (by intros [? ?]).
  - split; [done | by intros [? ?]].
Qed.

(** One plan entry: the cell it writes into the new row. *)
Lemma write_cell_spec (h : store) new d src p :
  h !! new = Some d →
  write_cell new src h p = <[new := <[p.2 := cell_value (resolve h src) p.1]> d]> h.
Proof.
  intros Hnew. destruct p as [src_col write_col]. unfold write_cell, Dict.setitem.
  assert (Dict.deref h new = d) as -> by (unfold Dict.deref; by rewrite Hnew).
  f_equal. f_equal. destruct src as [l|]; simpl; [| done].
  by case_bool_decide.
Qed.

(** The inner loop leaves the new row as the plan says. *)
Lemma fill_spec plan : ∀ (h : store) new d src,
  h !! new = Some d →
  (∀ l, src = Some l → l ≠ new) →
  foldl (write_cell new src) h plan
  = <[new := output_row d (resolve h src) plan]> h.
Proof.
  induction plan as [|p plan IH]; intros h new d src Hnew Hne; simpl.
  - by rewrite insert_id.
  - rewrite (write_cell_spec _ _ d) by done.
    rewrite (IH _ new (<[p.2 := cell_value (resolve h src) p.1]> d) src);
      [| by rewrite lookup_insert_eq | done].
    rewrite insert_insert_eq. by rewrite resolve_insert.
Qed.

Variables (masked_key : string) (lookup : gmap string loc)
          (col_plan : list (string * string)).

Local Abbreviation made := (Spec.made masked_key lookup col_plan).
Local Abbreviation found := (Spec.found masked_key lookup).

Lemma match_row_spec (h : store) out m tl :
  (∀ k l, lookup !! k = Some l → is_Some (h !! l)) →
  match_row masked_key lookup col_plan (h, out, m) tl
  = (<[fresh (dom h) := made h tl]> h, out ++ [fresh (dom h)],
     if decide (found h tl) then S m else m).
Proof.
  intros Hlk. unfold match_row, Dict.copy.
  set (new := fresh (dom h)).
  assert (Hfresh : h !! new = None).
  { apply not_elem_of_dom. apply is_fresh. }
  set (h1 := <[new := Dict.deref h tl]> h).
  assert (Hrow : Dict.deref h1 tl = Dict.deref h tl).
  { unfold h1. rewrite deref_insert. case_decide; [done | done]. }
  assert (Hkey : strip (str (Dict.get h1 tl masked_key "")) = key_of h masked_key tl).
  { unfold key_of, Dict.get. by rewrite Hrow. }
  rewrite Hkey.
  assert (Hsrc : ∀ l, lookup !! key_of h masked_key tl = Some l → l ≠ new).
  { intros l Hl ->. apply Hlk in Hl as [? Hl]. by rewrite Hfresh in Hl. }
  assert (Hres : resolve h1 (lookup !! key_of h masked_key tl)
                 = resolve h (lookup !! key_of h masked_key tl)).
  { by apply resolve_insert. }
  rewrite (fill_spec _ h1 new (Dict.deref h tl)); [| apply lookup_insert_eq | done].
  unfold h1 at 2. rewrite insert_insert_eq, Hres.
  f_equal. pose proof (truthy_resolve h1 (lookup !! key_of h masked_key tl)) as Ht.
  rewrite Hres in Ht. fold (found h tl) in Ht.
  destruct (Dict.truthy h1 _); case_decide; try done.
  - exfalso. tauto.
  - exfalso. by destruct Ht as [_ Ht]; specialize (Ht ltac:(done)).
Qed.

Variable h0 : store.
Hypothesis lookup_allocated : ∀ k l, lookup !! k = Some l → is_Some (h0 !! l).

Lemma made_weaken (h : store) tl :
  h0 ⊆ h → is_Some (h0 !! tl) → made h tl = made h0 tl.
Proof.
  intros Hsub Htl. unfold Spec.made, key_of, Dict.get.
  rewrite (deref_weaken h0 h tl) by done.
  f_equal. unfold resolve.
  destruct (lookup !! _) as [l|] eqn:Hl; [| done].
  by rewrite (deref_weaken h0 h l) by eauto.
Qed.

Lemma found_weaken (h : store) tl :
  h0 ⊆ h → is_Some (h0 !! tl) → found h tl ↔ found h0 tl.
Proof.
  intros Hsub Htl. unfold Spec.found, key_of, Dict.get.
  rewrite (deref_weaken h0 h tl) by done.
  unfold resolve. destruct (lookup !! _) as [l|] eqn:Hl; [| done].
  by rewrite (deref_weaken h0 h l) by eauto.
Qed.

(** The pass, from any state that extends the loaded store. *)
Lemma pass_from rows : ∀ (h : store) out m,
  h0 ⊆ h → allocated h0 rows →
  ∃ h' outs,
    foldl (match_row masked_key lookup col_plan) (h, out, m) rows
    = (h', out ++ outs, m + length (filter (found h0) rows)) ∧
    h ⊆ h' ∧
    Forall2 (λ tl ol, (ol ∉ dom h) ∧ h' !! ol = Some (made h0 tl)) rows outs ∧
    NoDup outs.
Proof.
  induction rows as [|tl rows IH]; intros h out m Hsub Hall.
  - exists h, []. simpl. rewrite app_nil_r, Nat.add_0_r.
    repeat split; [done | constructor | constructor].
  - apply Forall_cons in Hall as [Htl Hall]. cbn [foldl].
    rewrite match_row_spec by (intros k l Hl; apply lookup_allocated in Hl as [d Hd];
                               exists d; by apply (lookup_weaken _ _ _ _ Hd Hsub)).
    set (new := fresh (dom h)).
    assert (Hfresh : h !! new = None) by (apply not_elem_of_dom, is_fresh).
    rewrite made_weaken by done.
    set (h1 := <[new := made h0 tl]> h).
    assert (Hsub1 : h ⊆ h1) by (by apply insert_subseteq).
    destruct (IH h1 (out ++ [new]) (if decide (found h tl) then S m else m))
      as (h' & outs & Heq & Hsub' & Hrows & Hnd); [by etrans | done |].
    exists h', (new :: outs). rewrite Heq. split; [| split; [| split]].
    + f_equal; [f_equal; by rewrite <- app_assoc |].
      rewrite filter_cons. pose proof (found_weaken h tl Hsub Htl) as Hfw.
      do 2 case_decide; simpl; try lia; tauto.
    + by etrans.
    + constructor.
      * split; [by apply not_elem_of_dom |].
        apply (lookup_weaken h1); [apply lookup_insert_eq | done].
      * eapply Forall2_impl; [exact Hrows |]. intros tl' ol [Hol Hlk]. split; [| done].
        intros Hin. apply Hol. unfold h1. rewrite dom_insert. set_solver.
    + constructor; [| done]. intros Hin.
      apply list_elem_of_lookup in Hin as [i Hi].
      destruct (Forall2_lookup_r _ _ _ _ _ Hrows Hi) as (tl' & _ & Hol & _).
      apply Hol. unfold h1. rewrite dom_insert. set_solver.
Qed.

Lemma pass_spec rows :
  allocated h0 rows →
  ∃ h' outs,
    pass masked_key lookup col_plan h0 rows
    = (h', outs, length (filter (found h0) rows)) ∧
    h0 ⊆ h' ∧
    Forall2 (λ tl ol, (ol ∉ dom h0) ∧ h' !! ol = Some (made h0 tl)) rows outs ∧
    NoDup outs.
Proof.
  intros Hall. destruct (pass_from rows h0 [] 0) as (h' & outs & Heq & ?); [done | done |].
  exists h', outs. unfold pass. by rewrite Heq.
Qed.

End matcher.

(** ** The rows the plan writes *)

Section output_row.

Import Spec.

Lemma output_row_snoc d src plan p :
  output_row d src (plan ++ [p])
  = <[p.2 := cell_value src p.1]> (output_row d src plan).
Proof. unfold output_row. by rewrite foldl_snoc. Qed.

(** A column no entry writes keeps the value of the target row. *)
Lemma output_row_other d src plan c :
  c ∉ plan.*2 → output_row d src plan !! c = d !! c.
Proof.
  induction plan as [|p plan IH] using rev_ind; [done |].
  rewrite fmap_app, not_elem_of_app. intros [Hplan Hp%not_elem_of_cons].
  rewrite output_row_snoc, lookup_insert_ne; [by apply IH | ].
  simpl in Hp. by destruct Hp as [Hne _].
Qed.

(** The last entry that writes a column decides it. *)
Lemma output_row_last d src p1 s w p2 :
  w ∉ p2.*2 →
  output_row d src (p1 ++ (s, w) :: p2) !! w = Some (cell_value src s).
Proof.
  induction p2 as [|p p2 IH] using rev_ind; intros Hw.
  - rewrite output_row_snoc. apply lookup_insert_eq.
  - rewrite fmap_app, not_elem_of_app in Hw. destruct Hw as [Hw Hp%not_elem_of_cons].
    rewrite app_comm_cons, app_assoc, output_row_snoc.
    rewrite lookup_insert_ne; [by apply IH |].
    simpl in Hp. destruct Hp as [Hne _]. congruence.
Qed.

(** Without a reference row every written column is empty. *)
Lemma output_row_unmatched d plan s w :
  (s, w) ∈ plan → output_row d None plan !! w = Some "".
Proof.
  induction plan as [|p plan IH] using rev_ind; [by intros ?%elem_of_nil |].
  rewrite output_row_snoc. intros [Hin | Hin%list_elem_of_singleton]%elem_of_app.
  - destruct (decide (p.2 = w)) as [<- | Hne].
    + by rewrite lookup_insert_eq.
    + rewrite lookup_insert_ne by done. by apply IH.
  - subst p. by rewrite lookup_insert_eq.
Qed.

End output_row.

(** ** The run *)

Section run.

Import Spec.

Variables (a : app) (h : store).

Local Abbreviation full_key := (strip (full_key_var a)).
Local Abbreviation masked_key := (strip (masked_key_var a)).
Local Abbreviation active_rows := (filter (λ r, active r = true) (mapping_rows a)).

(** the row the run is to make from a target row *)
Local Abbreviation expected plan tl :=
  (output_row (Dict.deref h tl)
     (source_row h full_key (full_rows a) (key_of h masked_key tl)) plan).

Local Abbreviation matches tl :=
  (has_match h full_key (full_rows a) (key_of h masked_key tl)).

Hypothesis Hready : ready a.
Hypothesis Hfull : allocated h (full_rows a).
Hypothesis Hmasked : allocated h (masked_rows a).

(** A run that passes the three checks computes its rows: it gives no
    warning and the planner does not run out of fuel. *)
Lemma run_computed :
  ∃ res h',
    _run a h = (Computed res, h') ∧
    Planner.plan (masked_headers a) active_rows
      = Some (result_headers res, col_plan res) ∧
    matched_count res = length (filter (λ tl, matches tl) (masked_rows a)) ∧
    total res = length (result_rows res) ∧
    unmatched res = (Z.of_nat (total res) - Z.of_nat (matched_count res))%Z ∧
    h ⊆ h' ∧
    Forall2 (λ tl ol, (ol ∉ dom h) ∧ h' !! ol = Some (expected (col_plan res) tl))
            (masked_rows a) (result_rows res) ∧
    NoDup (result_rows res).
Proof.
  destruct Hready as (Hf & Hm & Hfk & Hmk & Hact).
  unfold _run.
  rewrite (bool_decide_false (full_rows a = [])) by done.
  rewrite (bool_decide_false (masked_rows a = [])) by done. cbn [orb].
  unfold PyStr.truthy. rewrite !bool_decide_true by done. cbn [negb orb].
  rewrite bool_decide_false.
  2:{ intros Hnil. apply Exists_exists in Hact as (r & Hr & Hra).
      assert (r ∈ active_rows) as Hin by (by apply list_elem_of_filter).
      rewrite Hnil in Hin. by apply elem_of_nil in Hin. }
  destruct (steps_total active_rows (masked_headers a, [])) as [[hs plan] Hplan].
  unfold Planner.plan. rewrite Hplan.
  set (lookup := Lookup.build h full_key (full_rows a)).
  destruct (pass_spec masked_key lookup plan h) with (rows := masked_rows a)
    as (h' & outs & Hpass & Hsub & Hrows & Hnd); [| done |].
  { intros k l Hl. apply build_lookup_elem in Hl as (Hin & _).
    unfold allocated in Hfull. rewrite Forall_forall in Hfull. by apply Hfull. }
  rewrite Hpass.
  eexists _, h'. split; [reflexivity |]. cbn.
  split; [done |]. split.
  { f_equal. apply list_filter_iff. intros tl. apply source_row_is_Some. }
  repeat split; [done | exact Hrows | done].
Qed.

End run.

(** ** What the planner guarantees *)

Lemma step_extends st r st' :
  Planner.step st r = Some st' →
  ∃ hs plan, st' = (st.1 ++ hs, st.2 ++ plan).
Proof.
  destruct st as [hs0 plan0]. unfold Planner.step.
  destruct (negb _).
  { intros [= <-]. exists [], []. by rewrite !app_nil_r. }
  destruct (_ || _).
  - destruct (Planner.while_taken _ _ _ _ _) as [w|]; [| done].
    intros [= <-]. by eexists [_], [_].
  - intros [= <-]. exists [], [(full_var r, masked_var r)]. by rewrite app_nil_r.
Qed.

Lemma steps_extends rs : ∀ st st',
  Planner.steps st rs = Some st' →
  ∃ hs plan, st' = (st.1 ++ hs, st.2 ++ plan).
Proof.
  induction rs as [|r rs IH]; intros st st'; simpl.
  - intros [= <-]. exists [], []. rewrite !app_nil_r. by destruct st.
  - destruct (Planner.step st r) as [st1|] eqn:Hstep; [| done]. simpl.
    intros Hsteps. apply step_extends in Hstep as (hs1 & plan1 & ->).
    apply IH in Hsteps as (hs2 & plan2 & ->). simpl.
    exists (hs1 ++ hs2), (plan1 ++ plan2). by rewrite !app_assoc.
Qed.

(** C5. An entry that adds a column (its destination is the new-column
    choice, or its mode is append) and has a source column resolves to a
    name that is not among the headers so far; that name is the source
    column when it is free, and otherwise the source column with the suffix
    numbered by the first counter from 1 on whose name is free.  The name
    is put at the end of the headers: after the target headers and the
    columns of the entries before it, before the columns of those after. *)
Theorem C5_appended_column_gets_first_free_name
    (masked_headers : list string) (before after : list mapping_row)
    (r : mapping_row) :
  full_var r ≠ "" →
  Spec.appends r = true →
  ∃ earlier plan w later later_plan,
    let hs := masked_headers ++ earlier in
    Planner.plan masked_headers before = Some (hs, plan) ∧
    Planner.plan masked_headers (before ++ [r])
      = Some (hs ++ [w], plan ++ [(full_var r, w)]) ∧
    Planner.plan masked_headers (before ++ r :: after)
      = Some (hs ++ w :: later, plan ++ (full_var r, w) :: later_plan) ∧
    (w ∉ hs) ∧
    (full_var r ∉ hs → w = full_var r) ∧
    (full_var r ∈ hs →
     ∃ n, 1 ≤ n ∧ w = Planner.suffixed (full_var r) n ∧
          ∀ k, 1 ≤ k < n → Planner.suffixed (full_var r) k ∈ hs).
Proof.
  intros Hsrc Happ. unfold Planner.plan.
  destruct (steps_total before (masked_headers, [])) as [[hs plan] Hbefore].
  destruct (steps_extends _ _ _ Hbefore) as (earlier & plan0 & [= -> ->]).
  simpl in Hbefore.
  destruct (step_append (masked_headers ++ earlier) plan0 r Hsrc Happ)
    as (w & Hstep & Hnew & Hfree & Htaken).
  destruct (steps_total after ((masked_headers ++ earlier) ++ [w],
                               plan0 ++ [(full_var r, w)])) as [st' Hafter].
  destruct (steps_extends _ _ _ Hafter) as (later & later_plan & ->).
  simpl in Hafter.
  exists earlier, plan0, w, later, later_plan. cbv zeta.
  split; [done |]. split; [| split; [| done]].
  - rewrite steps_app, Hbefore. cbn [mbind option_bind Planner.steps].
    by rewrite Hstep.
  - rewrite steps_app, Hbefore. cbn [mbind option_bind Planner.steps].
    rewrite Hstep. cbn [mbind option_bind].
    rewrite Hafter. by rewrite <- !app_assoc.
Qed.

Lemma C5_witness :
  ∃ earlier plan w later later_plan,
    let r := MappingRow "name" "dept" "append" true in
    let hs := ["uid"; "dept"; "name"] ++ earlier in
    Planner.plan ["uid"; "dept"; "name"]
      [MappingRow "name" Planner.NEW_COLUMN "overwrite" true] = Some (hs, plan) ∧
    Planner.plan ["uid"; "dept"; "name"]
      ([MappingRow "name" Planner.NEW_COLUMN "overwrite" true] ++ [r])
      = Some (hs ++ [w], plan ++ [(full_var r, w)]) ∧
    Planner.plan ["uid"; "dept"; "name"]
      ([MappingRow "name" Planner.NEW_COLUMN "overwrite" true]
       ++ r :: [MappingRow "id" "uid" "overwrite" true])
      = Some (hs ++ w :: later, plan ++ (full_var r, w) :: later_plan) ∧
    (w ∉ hs) ∧
    (full_var r ∉ hs → w = full_var r) ∧
    (full_var r ∈ hs →
     ∃ n, 1 ≤ n ∧ w = Planner.suffixed (full_var r) n ∧
          ∀ k, 1 ≤ k < n → Planner.suffixed (full_var r) k ∈ hs).
Proof.
  apply (C5_appended_column_gets_first_free_name ["uid"; "dept"; "name"]
           [MappingRow "name" Planner.NEW_COLUMN "overwrite" true]
           [MappingRow "id" "uid" "overwrite" true]
           (MappingRow "name" "dept" "append" true)).
  - done.
  - reflexivity.
Defined.

Example plan_resolves_second_collision :
  Planner.plan ["uid"; "dept"; "name"]
    [MappingRow "name" Planner.NEW_COLUMN "overwrite" true;
     MappingRow "name" "dept" "append" true;
     MappingRow "id" "uid" "overwrite" true]
  = Some (["uid"; "dept"; "name"; "name_补全1"; "name_补全2"],
          [("name", "name_补全1"); ("name", "name_补全2"); ("id", "uid")]).
Proof. reflexivity. Qed.

(** ** What the run guarantees *)

Lemma filter_none {A} (P : A → Prop) `{∀ x, Decision (P x)} (l : list A) :
  (∀ x, ¬ P x) → filter P l = [].
Proof.
  intros HP. induction l as [|x l IH]; [done |].
  rewrite filter_cons. by rewrite decide_False by apply HP.
Qed.

(** C1. A run over loaded lists, with both keys chosen and a mapping line
    in place, computes its rows, and the row list has exactly one row per
    target row in the same order: the two lists are equally long, the total
    reported is that length, and row [i] of the output is the row made from
    target row [i] (a copy of it with the plan's columns written). *)
Theorem C1_one_output_row_per_target_row (a : app) (h : store) :
  Spec.ready a →
  Spec.allocated h (full_rows a) →
  Spec.allocated h (masked_rows a) →
  ∃ res h',
    _run a h = (Computed res, h') ∧
    length (result_rows res) = length (masked_rows a) ∧
    total res = length (masked_rows a) ∧
    ∀ i tl, masked_rows a !! i = Some tl →
      ∃ ol, result_rows res !! i = Some ol ∧
            h' !! ol = Some
              (Spec.output_row (Dict.deref h tl)
                 (Spec.source_row h (strip (full_key_var a)) (full_rows a)
                    (Spec.key_of h (strip (masked_key_var a)) tl))
                 (col_plan res)).
Proof.
  intros Hready Hfull Hmasked.
  destruct (run_computed a h Hready Hfull Hmasked)
    as (res & h' & Hrun & _ & _ & Htotal & _ & _ & Hrows & _).
  exists res, h'. pose proof (Forall2_length _ _ _ Hrows) as Hlen.
  repeat split; [done | done | congruence |].
  intros i tl Hi.
  destruct (Forall2_lookup_l _ _ _ _ _ Hrows Hi) as (ol & Hol & _ & Hrow).
  by exists ol.
Qed.

Lemma C1_witness :
  ∃ res h',
    _run Scenario.overwrite_app Scenario.h0 = (Computed res, h') ∧
    length (result_rows res) = length (masked_rows Scenario.overwrite_app) ∧
    total res = length (masked_rows Scenario.overwrite_app) ∧
    ∀ i tl, masked_rows Scenario.overwrite_app !! i = Some tl →
      ∃ ol, result_rows res !! i = Some ol ∧
            h' !! ol = Some
              (Spec.output_row (Dict.deref Scenario.h0 tl)
                 (Spec.source_row Scenario.h0 (strip (full_key_var Scenario.overwrite_app))
                    (full_rows Scenario.overwrite_app)
                    (Spec.key_of Scenario.h0 (strip (masked_key_var Scenario.overwrite_app)) tl))
                 (col_plan res)).
Proof.
  apply (C1_one_output_row_per_target_row Scenario.overwrite_app Scenario.h0).
  - repeat split; [done | done | by vm_compute | by vm_compute |].
    apply Exists_cons_hd. reflexivity.
  - apply (bool_decide_unpack _). by vm_compute.
  - apply (bool_decide_unpack _). by vm_compute.
Defined.

(** C2. A target row is matched exactly when its trimmed key text is not
    empty and is the trimmed key text of some reference row: the count the
    run reports is the number of such target rows, such a row is written
    from a reference row with that key, any other row (in particular one
    whose trimmed key is empty) gets the empty text, and the lookup table
    has no entry for the empty key. *)
Theorem C2_matched_iff_trimmed_keys_agree (a : app) (h : store) :
  Spec.ready a →
  Spec.allocated h (full_rows a) →
  Spec.allocated h (masked_rows a) →
  let full_key := strip (full_key_var a) in
  let masked_key := strip (masked_key_var a) in
  let matches tl :=
    Spec.has_match h full_key (full_rows a) (Spec.key_of h masked_key tl) in
  Lookup.build h full_key (full_rows a) !! "" = None ∧
  ∃ res h',
    _run a h = (Computed res, h') ∧
    matched_count res = length (filter matches (masked_rows a)) ∧
    ∀ i tl ol, masked_rows a !! i = Some tl → result_rows res !! i = Some ol →
      (matches tl →
       ∃ rl, rl ∈ full_rows a ∧
             Spec.key_of h full_key rl = Spec.key_of h masked_key tl ∧
             h' !! ol = Some (Spec.output_row (Dict.deref h tl)
                                (Some (Dict.deref h rl)) (col_plan res))) ∧
      (¬ matches tl →
       h' !! ol = Some (Spec.output_row (Dict.deref h tl) None (col_plan res))) ∧
      (Spec.key_of h masked_key tl = "" → ¬ matches tl).
Proof.
  intros Hready Hfull Hmasked full_key masked_key matches.
  subst full_key masked_key matches. cbv beta. split.
  { apply eq_None_not_Some. intros Hs%build_is_Some. by destruct Hs as [Hne _]. }
  destruct (run_computed a h Hready Hfull Hmasked)
    as (res & h' & Hrun & _ & Hcount & _ & _ & _ & Hrows & _).
  exists res, h'. split; [done |]. split; [done |].
  intros i tl ol Hi Ho.
  destruct (Forall2_lookup_lr _ _ _ _ _ _ Hrows Hi Ho) as [_ Hrow].
  rewrite Hrow. split; [| split].
  - intros Hm. apply build_is_Some in Hm as [rl Hrl].
    exists rl. rewrite (source_row_found _ _ _ _ _ Hrl).
    by apply build_lookup_elem in Hrl as (? & ? & _).
  - intros Hm. do 2 f_equal.
    destruct (Spec.source_row _ _ _ _) eqn:Hsrc; [| done].
    exfalso. apply Hm. apply source_row_is_Some. by rewrite Hsrc.
  - intros Hk [Hne _]. done.
Qed.

Lemma C2_witness :
  let a := Scenario.overwrite_app in
  let h := Scenario.h0 in
  let matches tl :=
    Spec.has_match h (strip (full_key_var a)) (full_rows a)
      (Spec.key_of h (strip (masked_key_var a)) tl) in
  Lookup.build h (strip (full_key_var a)) (full_rows a) !! "" = None ∧
  ∃ res h',
    _run a h = (Computed res, h') ∧
    matched_count res = length (filter matches (masked_rows a)) ∧
    ∀ i tl ol, masked_rows a !! i = Some tl → result_rows res !! i = Some ol →
      (matches tl →
       ∃ rl, rl ∈ full_rows a ∧
             Spec.key_of h (strip (full_key_var a)) rl
             = Spec.key_of h (strip (masked_key_var a)) tl ∧
             h' !! ol = Some (Spec.output_row (Dict.deref h tl)
                                (Some (Dict.deref h rl)) (col_plan res))) ∧
      (¬ matches tl →
       h' !! ol = Some (Spec.output_row (Dict.deref h tl) None (col_plan res))) ∧
      (Spec.key_of h (strip (masked_key_var a)) tl = "" → ¬ matches tl).
Proof.
  apply (C2_matched_iff_trimmed_keys_agree Scenario.overwrite_app Scenario.h0).
  - repeat split; [done | done | by vm_compute | by vm_compute |].
    apply Exists_cons_hd. reflexivity.
  - apply (bool_decide_unpack _). by vm_compute.
  - apply (bool_decide_unpack _). by vm_compute.
Defined.

(** C3. When reference rows share a trimmed key, the row that comes last
    in the reference list is the one the lookup table holds for that key,
    and every target row with that key is written from it. *)
Theorem C3_later_reference_row_wins (a : app) (h : store)
    (earlier later : list loc) (rl : loc) (k : string) :
  Spec.ready a →
  Spec.allocated h (full_rows a) →
  Spec.allocated h (masked_rows a) →
  full_rows a = earlier ++ rl :: later →
  Spec.key_of h (strip (full_key_var a)) rl = k →
  k ≠ "" →
  Forall (λ l, Spec.key_of h (strip (full_key_var a)) l ≠ k) later →
  Lookup.build h (strip (full_key_var a)) (full_rows a) !! k = Some rl ∧
  ∃ res h',
    _run a h = (Computed res, h') ∧
    ∀ i tl, masked_rows a !! i = Some tl →
      Spec.key_of h (strip (masked_key_var a)) tl = k →
      ∃ ol, result_rows res !! i = Some ol ∧
            h' !! ol = Some (Spec.output_row (Dict.deref h tl)
                               (Some (Dict.deref h rl)) (col_plan res)).
Proof.
  intros Hready Hfull Hmasked Hsplit Hk Hne Hlater.
  assert (Hrl : Lookup.build h (strip (full_key_var a)) (full_rows a) !! k = Some rl).
  { apply build_lookup_Some. split; [done |]. by exists earlier, later. }
  split; [done |].
  destruct (run_computed a h Hready Hfull Hmasked)
    as (res & h' & Hrun & _ & _ & _ & _ & _ & Hrows & _).
  exists res, h'. split; [done |]. intros i tl Hi Htl.
  destruct (Forall2_lookup_l _ _ _ _ _ Hrows Hi) as (ol & Hol & _ & Hrow).
  exists ol. split; [done |]. rewrite Hrow, Htl.
  by rewrite (source_row_found _ _ _ _ _ Hrl).
Qed.

Lemma C3_witness :
  let a := Scenario.duplicate_app in
  let h := Scenario.h_dup in
  Lookup.build h (strip (full_key_var a)) (full_rows a) !! "1" = Some 2 ∧
  ∃ res h',
    _run a h = (Computed res, h') ∧
    ∀ i tl, masked_rows a !! i = Some tl →
      Spec.key_of h (strip (masked_key_var a)) tl = "1" →
      ∃ ol, result_rows res !! i = Some ol ∧
            h' !! ol = Some (Spec.output_row (Dict.deref h tl)
                               (Some (Dict.deref h 2)) (col_plan res)).
Proof.
  apply (C3_later_reference_row_wins Scenario.duplicate_app Scenario.h_dup [0; 1] [] 2 "1").
  - repeat split; [done | done | by vm_compute | by vm_compute |].
    apply Exists_cons_hd. reflexivity.
  - apply (bool_decide_unpack _). by vm_compute.
  - apply (bool_decide_unpack _). by vm_compute.
  - reflexivity.
  - by vm_compute.
  - done.
  - constructor.
Defined.

(** C4. Each output row is a new dictionary holding a copy of its target
    row in which the plan's entries were written in plan order: the cell of
    an entry is the source column of the matched reference row when there
    is one and it has that column, and the empty text otherwise.  So the
    last entry that writes a column decides its value in every row. *)
Theorem C4_plan_written_in_order_last_wins (a : app) (h : store) :
  Spec.ready a →
  Spec.allocated h (full_rows a) →
  Spec.allocated h (masked_rows a) →
  ∃ res h',
    _run a h = (Computed res, h') ∧
    ∀ i tl, masked_rows a !! i = Some tl →
      let src := Spec.source_row h (strip (full_key_var a)) (full_rows a)
                   (Spec.key_of h (strip (masked_key_var a)) tl) in
      ∃ ol d,
        result_rows res !! i = Some ol ∧ (ol ∉ dom h) ∧ h' !! ol = Some d ∧
        d = foldl (λ d p, <[p.2 := Spec.cell_value src p.1]> d)
                  (Dict.deref h tl) (col_plan res) ∧
        ∀ before s w after,
          col_plan res = before ++ (s, w) :: after → w ∉ after.*2 →
          d !! w = Some match src with
                        | Some r => default "" (r !! s)
                        | None => ""
                        end.
Proof.
  intros Hready Hfull Hmasked.
  destruct (run_computed a h Hready Hfull Hmasked)
    as (res & h' & Hrun & _ & _ & _ & _ & _ & Hrows & _).
  exists res, h'. split; [done |]. intros i tl Hi src.
  destruct (Forall2_lookup_l _ _ _ _ _ Hrows Hi) as (ol & Hol & Hnew & Hrow).
  exists ol, (Spec.output_row (Dict.deref h tl) src (col_plan res)).
  repeat split; [done | done | done |].
  intros before s w after -> Hw. by rewrite output_row_last.
Qed.

Lemma C4_witness :
  let a := Scenario.twice_app in
  let h := Scenario.h0 in
  ∃ res h',
    _run a h = (Computed res, h') ∧
    ∀ i tl, masked_rows a !! i = Some tl →
      let src := Spec.source_row h (strip (full_key_var a)) (full_rows a)
                   (Spec.key_of h (strip (masked_key_var a)) tl) in
      ∃ ol d,
        result_rows res !! i = Some ol ∧ (ol ∉ dom h) ∧ h' !! ol = Some d ∧
        d = foldl (λ d p, <[p.2 := Spec.cell_value src p.1]> d)
                  (Dict.deref h tl) (col_plan res) ∧
        ∀ before s w after,
          col_plan res = before ++ (s, w) :: after → w ∉ after.*2 →
          d !! w = Some match src with
                        | Some r => default "" (r !! s)
                        | None => ""
                        end.
Proof.
  apply (C4_plan_written_in_order_last_wins Scenario.twice_app Scenario.h0).
  - repeat split; [done | done | by vm_compute | by vm_compute |].
    apply Exists_cons_hd. reflexivity.
  - apply (bool_decide_unpack _). by vm_compute.
  - apply (bool_decide_unpack _). by vm_compute.
Defined.

(** C6. A column of a target row that no plan entry writes has the same
    value in the output row, and the run leaves every dictionary that was in
    the store as it was: it writes only to the output rows, which are new. *)
Theorem C6_other_columns_and_loaded_rows_unchanged (a : app) (h : store) :
  Spec.ready a →
  Spec.allocated h (full_rows a) →
  Spec.allocated h (masked_rows a) →
  ∃ res h',
    _run a h = (Computed res, h') ∧
    (∀ l d, h !! l = Some d → h' !! l = Some d) ∧
    (∀ ol, ol ∈ result_rows res → h !! ol = None) ∧
    ∀ i tl, masked_rows a !! i = Some tl →
      ∃ ol d,
        result_rows res !! i = Some ol ∧ h' !! ol = Some d ∧
        ∀ c, c ∉ (col_plan res).*2 → d !! c = Dict.deref h tl !! c.
Proof.
  intros Hready Hfull Hmasked.
  destruct (run_computed a h Hready Hfull Hmasked)
    as (res & h' & Hrun & _ & _ & _ & _ & Hsub & Hrows & _).
  exists res, h'. split; [done |]. split; [| split].
  - intros l d Hl. by apply (lookup_weaken h).
  - intros ol [i Hi]%list_elem_of_lookup.
    destruct (Forall2_lookup_r _ _ _ _ _ Hrows Hi) as (tl & _ & Hnew & _).
    by apply not_elem_of_dom.
  - intros i tl Hi.
    destruct (Forall2_lookup_l _ _ _ _ _ Hrows Hi) as (ol & Hol & _ & Hrow).
    eexists ol, _. split; [done |]. split; [done |].
    intros c Hc. by apply output_row_other.
Qed.

Lemma C6_witness :
  let a := Scenario.append_app in
  let h := Scenario.h0 in
  ∃ res h',
    _run a h = (Computed res, h') ∧
    (∀ l d, h !! l = Some d → h' !! l = Some d) ∧
    (∀ ol, ol ∈ result_rows res → h !! ol = None) ∧
    ∀ i tl, masked_rows a !! i = Some tl →
      ∃ ol d,
        result_rows res !! i = Some ol ∧ h' !! ol = Some d ∧
        ∀ c, c ∉ (col_plan res).*2 → d !! c = Dict.deref h tl !! c.
Proof.
  apply (C6_other_columns_and_loaded_rows_unchanged Scenario.append_app Scenario.h0).
  - repeat split; [done | done | by vm_compute | by vm_compute |].
    apply Exists_cons_hd. reflexivity.
  - apply (bool_decide_unpack _). by vm_compute.
  - apply (bool_decide_unpack _). by vm_compute.
Defined.

(** C10. When no reference row has the selected reference key column, the
    run still computes its rows: the lookup table is empty, no row counts
    as matched, every column of the plan is the empty text in every output
    row, and the other columns of the target rows are kept. *)
Theorem C10_absent_reference_key_matches_nothing (a : app) (h : store) :
  Spec.ready a →
  Spec.allocated h (full_rows a) →
  Spec.allocated h (masked_rows a) →
  (∀ rl, rl ∈ full_rows a → Dict.deref h rl !! strip (full_key_var a) = None) →
  Lookup.build h (strip (full_key_var a)) (full_rows a) = ∅ ∧
  ∃ res h',
    _run a h = (Computed res, h') ∧
    matched_count res = 0 ∧
    ∀ i tl, masked_rows a !! i = Some tl →
      ∃ ol d,
        result_rows res !! i = Some ol ∧ h' !! ol = Some d ∧
        (∀ s w, (s, w) ∈ col_plan res → d !! w = Some "") ∧
        (∀ c, c ∉ (col_plan res).*2 → d !! c = Dict.deref h tl !! c).
Proof.
  intros Hready Hfull Hmasked Habsent.
  assert (Hnone : ∀ k, ¬ Spec.has_match h (strip (full_key_var a)) (full_rows a) k).
  { intros k [Hne (rl & Hrl & Hk)%Exists_exists]. apply Hne. rewrite <- Hk.
    unfold Spec.key_of, Dict.get. by rewrite (Habsent rl Hrl). }
  assert (Hempty : Lookup.build h (strip (full_key_var a)) (full_rows a) = ∅).
  { apply map_empty. intros k. apply eq_None_not_Some.
    intros Hs%build_is_Some. by apply (Hnone k). }
  split; [done |].
  destruct (run_computed a h Hready Hfull Hmasked)
    as (res & h' & Hrun & _ & Hcount & _ & _ & _ & Hrows & _).
  exists res, h'. split; [done |]. split.
  { rewrite Hcount, filter_none; [done |]. intros tl. apply Hnone. }
  intros i tl Hi.
  destruct (Forall2_lookup_l _ _ _ _ _ Hrows Hi) as (ol & Hol & _ & Hrow).
  eexists ol, _. split; [done |]. split; [done |].
  unfold Spec.source_row. rewrite Hempty, lookup_empty. simpl. split.
  - intros s w Hin. by apply (output_row_unmatched _ _ s).
  - intros c Hc. by apply output_row_other.
Qed.

Lemma C10_witness :
  let a := Scenario.absent_key_app in
  let h := Scenario.h0 in
  Lookup.build h (strip (full_key_var a)) (full_rows a) = ∅ ∧
  ∃ res h',
    _run a h = (Computed res, h') ∧
    matched_count res = 0 ∧
    ∀ i tl, masked_rows a !! i = Some tl →
      ∃ ol d,
        result_rows res !! i = Some ol ∧ h' !! ol = Some d ∧
        (∀ s w, (s, w) ∈ col_plan res → d !! w = Some "") ∧
        (∀ c, c ∉ (col_plan res).*2 → d !! c = Dict.deref h tl !! c).
Proof.
  apply (C10_absent_reference_key_matches_nothing Scenario.absent_key_app Scenario.h0).
  - repeat split; [done | done | by vm_compute | by vm_compute |].
    apply Exists_cons_hd. reflexivity.
  - apply (bool_decide_unpack _). by vm_compute.
  - apply (bool_decide_unpack _). by vm_compute.
  - intros rl Hrl. cbn in Hrl.
    repeat (apply elem_of_cons in Hrl as [-> | Hrl]; [by vm_compute |]).
    by apply elem_of_nil in Hrl.
Defined.

(** ** Reading files *)

Lemma try_encodings_all_fail w path encs :
  (∀ enc, ∃ e, read_csv_as w path enc = Raise e) →
  try_encodings w path encs = Raise encoding_error.
Proof.
  intros Hfail. induction encs as [|enc encs IH]; simpl; [done |].
  by destruct (Hfail enc) as [e ->].
Qed.

(** The first encoding under which the file reads decides the result. *)
Lemma try_encodings_Ok w path encs r :
  try_encodings w path encs = Ok r →
  ∃ enc, enc ∈ encs ∧ read_csv_as w path enc = Ok r.
Proof.
  induction encs as [|enc encs IH]; simpl; [done |].
  destruct (read_csv_as w path enc) as [r'|e] eqn:Henc.
  - intros [= ->]. exists enc. split; [by left | done].
  - intros (enc' & Hin & Hr)%IH. exists enc'. split; [by right | done].
Qed.

(** The spreadsheet branch hands on what [load_workbook] raises. *)
Lemma read_xlsx_error_propagates w path load_workbook e :
  openpyxl w = Some load_workbook →
  load_workbook path = Raise e →
  _read_xlsx w path = Raise e.
Proof. intros Hox Hload. unfold _read_xlsx. by rewrite Hox, Hload. Qed.

(** C8, on the code. A [.csv] path that names no file, or a file that
    cannot be read, makes [open] raise in every round of the encoding loop;
    the loop goes on to the next encoding each time and [read_file] ends
    with the error that says the encoding was not recognised: the error of
    the file system does not reach the caller. *)
Theorem C8_csv_open_failure_reported_as_encoding_error (w : world) (path : string) :
  OsPath.lower (OsPath.splitext_ext (windows w) path) = ".csv" →
  files w !! path = None ∨ files w !! path = Some Unreadable →
  (∀ enc, ∃ e, open_read w path enc = Raise e ∧ is_OSError e = true) ∧
  read_file w path = Raise encoding_error.
Proof.
  intros Hext Hfile.
  assert (Hopen : ∀ enc, ∃ e, open_read w path enc = Raise e ∧ is_OSError e = true).
  { intros enc. unfold open_read. destruct Hfile as [-> | ->]; by eexists. }
  split; [done |].
  unfold read_file. rewrite Hext, bool_decide_true by done.
  apply try_encodings_all_fail. intros enc.
  destruct (Hopen enc) as (e & He & _). exists e. unfold read_csv_as. by rewrite He.
Qed.

Lemma C8_witness :
  (∀ enc, ∃ e, open_read Example.empty_machine "C:\lists\full.CSV" enc = Raise e ∧
               is_OSError e = true) ∧
  read_file Example.empty_machine "C:\lists\full.CSV" = Raise encoding_error.
Proof.
  apply (C8_csv_open_failure_reported_as_encoding_error
           Example.empty_machine "C:\lists\full.CSV").
  - by vm_compute.
  - left. by vm_compute.
Defined.

Example missing_workbook_raises_OSError :
  read_file Example.empty_machine "C:\lists\full.xlsx"
  = Raise (FileNotFoundError "C:\lists\full.xlsx").
Proof. by vm_compute. Qed.

(** C9, on the code. A line with more cells than the header: the reader
    keeps the cells beyond the header as a list under the key [None], so
    the row it returns has a value that is not a text. *)
Theorem C9_long_line_yields_list_under_None :
  _read_csv (Example.machine {[ "in.csv" := Bytes Example.long_line_csv ]} ∅) "in.csv"
  = Ok (["a"], [ {[ Some "a" := PStr "1"; None := PList ["2"] ]} ]).
Proof. by vm_compute. Qed.

(** ** The CSV reader on what the CSV writer wrote *)

Section csv.

Import Csv Spec.

Lemma append_nil_l s : "" +:+ s = s.
Proof. done. Qed.

Lemma append_cons c s t : String c s +:+ t = String c (s +:+ t).
Proof. done. Qed.

Lemma append_empty_r s : s +:+ "" = s.
Proof. induction s as [|c s IH]; [done |]. by rewrite append_cons, IH. Qed.

Lemma append_assoc s1 s2 s3 : (s1 +:+ s2) +:+ s3 = s1 +:+ (s2 +:+ s3).
Proof. induction s1 as [|c s1 IH]; [done |]. by rewrite !append_cons, IH. Qed.

Lemma rev_app_rev_app a : ∀ b c,
  String.rev_app (String.rev_app a b) c = String.rev_app b (a +:+ c).
Proof.
  induction a as [|x a IH]; intros b c; [done |].
  cbn [String.rev_app]. by rewrite IH, append_cons.
Qed.

Lemma rev_rev_app f : String.rev (String.rev_app f "") = f.
Proof. unfold String.rev. by rewrite rev_app_rev_app, append_empty_r. Qed.

Lemma char_len_cons c s : char_len (String c s) = (weight c + char_len s)%N.
Proof. done. Qed.

Lemma CR_not_LF : CR ≠ LF.
Proof. done. Qed.

(** One character of the text, and the end of line after it if there is one. *)
Lemma chars_cons p c s :
  chars p (String c s)
  = Some c :: (if ends_line c s then None :: chars false s else chars true s).
Proof.
  unfold ends_line. simpl. case_bool_decide as HLF; [done |].
  case_bool_decide as HCR; [| done]. simpl.
  destruct s as [|c' s']; [done |].
  case_bool_decide as HLF'; simpl; [| done].
  subst c'. by simpl.
Qed.

Lemma ends_line_plain c s : is_newline c = false → ends_line c s = false.
Proof.
  unfold is_newline, ends_line. intros [H1 H2]%orb_false_elim.
  by rewrite H1, H2.
Qed.

Lemma parse_add_char_ok s fld n fs c :
  (n + weight c ≤ field_limit)%N →
  parse_add_char (Reader s fld n fs) c
  = Ok (Reader s (String c fld) (n + weight c) fs).
Proof.
  unfold parse_add_char, weight. simpl. destruct (continuation c); intros Hn.
  - by rewrite N.add_0_r.
  - destruct (N.leb_spec field_limit n); [lia | done].
Qed.

Lemma bind_Ok {A B} (a : A) (f : A → res B) : Ok a ≫= f = f a.
Proof. done. Qed.

Lemma records_char r c cs :
  records r (Some c :: cs) = r' ← parse_process_char r (Some c); records r' cs.
Proof. done. Qed.

Lemma records_eol r cs :
  records r (None :: cs)
  = r' ← parse_process_char r None;
    if bool_decide (st r' = START_RECORD)
    then rs ← records parse_reset cs; Ok (rev (fields r') :: rs)
    else records r' cs.
Proof. done. Qed.

(** The steps of the state machine the written text takes it through. *)

Lemma quoted_quote fld n fs :
  parse_process_char (Reader IN_QUOTED_FIELD fld n fs) (Some QUOTE)
  = Ok (Reader QUOTE_IN_QUOTED_FIELD fld n fs).
Proof. done. Qed.

Lemma quoted_other fld n fs c :
  c ≠ QUOTE →
  parse_process_char (Reader IN_QUOTED_FIELD fld n fs) (Some c)
  = parse_add_char (Reader IN_QUOTED_FIELD fld n fs) c.
Proof.
  intros Hc. unfold parse_process_char. cbn [st]. by rewrite bool_decide_false.
Qed.

Lemma quoted_eol fld n fs :
  parse_process_char (Reader IN_QUOTED_FIELD fld n fs) None
  = Ok (Reader IN_QUOTED_FIELD fld n fs).
Proof. done. Qed.

Lemma doubled_quote fld n fs :
  (n + 1 ≤ field_limit)%N →
  parse_process_char (Reader QUOTE_IN_QUOTED_FIELD fld n fs) (Some QUOTE)
  = Ok (Reader IN_QUOTED_FIELD (String QUOTE fld) (n + 1) fs).
Proof.
  intros Hn. unfold parse_process_char. cbn [st].
  rewrite bool_decide_true by done.
  by rewrite (parse_add_char_ok _ _ _ _ QUOTE) by done.
Qed.

(** The body of a quoted field, up to the closing quote. *)
Lemma quoted_body f : ∀ fld n fs p rest,
  (n + char_len f ≤ field_limit)%N →
  records (Reader IN_QUOTED_FIELD fld n fs)
          (chars p (double_quotes f +:+ String QUOTE rest))
  = records (Reader QUOTE_IN_QUOTED_FIELD (String.rev_app f fld) (n + char_len f) fs)
            (chars true rest).
Proof.
  induction f as [|c f IH]; intros fld n fs p rest Hn.
  - cbn [double_quotes]. rewrite append_nil_l, chars_cons, ends_line_plain by reflexivity.
    rewrite records_char, quoted_quote, bind_Ok. cbn. by rewrite N.add_0_r.
  - rewrite char_len_cons in Hn. cbn [double_quotes String.rev_app].
    rewrite char_len_cons, N.add_assoc.
    case_bool_decide as Hq.
    + subst c. rewrite !append_cons.
      rewrite chars_cons, ends_line_plain by reflexivity.
      rewrite chars_cons, ends_line_plain by reflexivity.
      rewrite records_char, quoted_quote, bind_Ok.
      rewrite records_char, doubled_quote, bind_Ok by (change (weight QUOTE) with 1%N in Hn; lia).
      change (weight QUOTE) with 1%N. apply IH.
      change (weight QUOTE) with 1%N in Hn. lia.
    + rewrite append_cons, chars_cons.
      rewrite records_char, quoted_other, parse_add_char_ok, bind_Ok by (done || lia).
      destruct (ends_line c _).
      * rewrite records_eol, quoted_eol, bind_Ok. cbn [st].
        rewrite bool_decide_false by done. apply IH. lia.
      * apply IH. lia.
Qed.

Lemma chars_pending p q c s : chars p (String c s) = chars q (String c s).
Proof. by rewrite !chars_cons. Qed.

Lemma weight_le c n : (n ≤ field_limit - 1)%N → (n + weight c ≤ field_limit)%N.
Proof. unfold weight, field_limit. destruct (continuation c); lia. Qed.

Lemma plain_not_newline c : special c = false → is_newline c = false.
Proof. unfold special. by intros [_ ?]%orb_false_elim. Qed.

Lemma plain_not_quote c : special c = false → c ≠ QUOTE.
Proof.
  unfold special. intros [[_ H]%orb_false_elim _]%orb_false_elim ->.
  by rewrite bool_decide_true in H.
Qed.

Lemma plain_not_comma c : special c = false → c ≠ COMMA.
Proof.
  unfold special. intros [[H _]%orb_false_elim _]%orb_false_elim ->.
  by rewrite bool_decide_true in H.
Qed.

Lemma field_plain fld n fs c :
  special c = false →
  parse_process_char (Reader IN_FIELD fld n fs) (Some c)
  = parse_add_char (Reader IN_FIELD fld n fs) c.
Proof.
  intros Hc. unfold parse_process_char. cbn [st].
  rewrite (plain_not_newline c Hc).
  by rewrite bool_decide_false by by apply plain_not_comma.
Qed.

Lemma field_starts_plain fld n fs c :
  special c = false → (n + weight c ≤ field_limit)%N →
  parse_process_char (Reader START_FIELD fld n fs) (Some c)
  = Ok (Reader IN_FIELD (String c fld) (n + weight c) fs).
Proof.
  intros Hc Hn. unfold parse_process_char, start_field. cbn [st].
  rewrite (plain_not_newline c Hc).
  rewrite bool_decide_false by by apply plain_not_quote.
  rewrite bool_decide_false by by apply plain_not_comma.
  by rewrite parse_add_char_ok.
Qed.

Lemma field_starts_quoted fld n fs :
  parse_process_char (Reader START_FIELD fld n fs) (Some QUOTE)
  = Ok (Reader IN_QUOTED_FIELD fld n fs).
Proof. done. Qed.

(** The rest of a field that needs no quotes. *)
Lemma plain_tail f : ∀ fld n fs p c rest,
  needs_quotes f = false →
  (n + char_len f ≤ field_limit)%N →
  records (Reader IN_FIELD fld n fs) (chars p (f +:+ String c rest))
  = records (Reader IN_FIELD (String.rev_app f fld) (n + char_len f) fs)
            (chars true (String c rest)).
Proof.
  induction f as [|x f IH]; intros fld n fs p c rest Hplain Hn.
  - rewrite append_nil_l, (chars_pending p true).
    cbn [String.rev_app char_len]. by rewrite N.add_0_r.
  - cbn [needs_quotes] in Hplain. apply orb_false_elim in Hplain as [Hx Hplain].
    rewrite char_len_cons in Hn |- *.
    rewrite append_cons, chars_cons, (ends_line_plain x) by by apply plain_not_newline.
    rewrite records_char, field_plain, parse_add_char_ok, bind_Ok by (done || lia).
    rewrite IH by (done || lia). cbn [String.rev_app]. by rewrite N.add_assoc.
Qed.

(** A written field, up to the character [c] that follows it: the reader
    holds the text of the field and is in a state that [c] can end. *)
Lemma written_field f fs p c rest :
  fits f →
  ∃ s, (s = START_FIELD ∨ s = IN_FIELD ∨ s = QUOTE_IN_QUOTED_FIELD) ∧
       records (Reader START_FIELD "" 0 fs) (chars p (write_field f +:+ String c rest))
       = records (Reader s (String.rev_app f "") (char_len f) fs)
                 (chars true (String c rest)).
Proof.
  unfold fits. intros Hfits. unfold write_field.
  destruct (needs_quotes f) eqn:Hq.
  - exists QUOTE_IN_QUOTED_FIELD. split; [by right; right |].
    rewrite append_cons, chars_cons, ends_line_plain by reflexivity.
    rewrite records_char, field_starts_quoted, bind_Ok.
    rewrite append_assoc, append_cons, append_nil_l.
    by rewrite quoted_body by (rewrite N.add_0_l; done).
  - destruct f as [|x f].
    + exists START_FIELD. split; [by left |].
      rewrite append_nil_l. by rewrite (chars_pending p true).
    + exists IN_FIELD. split; [by right; left |].
      cbn [needs_quotes] in Hq. apply orb_false_elim in Hq as [Hx Hq].
      rewrite char_len_cons in Hfits |- *.
      rewrite append_cons, chars_cons, (ends_line_plain x) by by apply plain_not_newline.
      rewrite records_char, field_starts_plain, bind_Ok by (done || lia).
      rewrite N.add_0_l. by rewrite plain_tail by (done || lia).
Qed.

Lemma comma_ends_field s fld n fs :
  s = START_FIELD ∨ s = IN_FIELD ∨ s = QUOTE_IN_QUOTED_FIELD →
  parse_process_char (Reader s fld n fs) (Some COMMA)
  = Ok (Reader START_FIELD "" 0 (String.rev fld :: fs)).
Proof. by intros [-> | [-> | ->]]. Qed.

Lemma cr_ends_field s fld n fs :
  s = START_FIELD ∨ s = IN_FIELD ∨ s = QUOTE_IN_QUOTED_FIELD →
  parse_process_char (Reader s fld n fs) (Some CR)
  = Ok (Reader EAT_CRNL "" 0 (String.rev fld :: fs)).
Proof. by intros [-> | [-> | ->]]. Qed.

(** The end of a written line, after its last field was saved. *)
Lemma line_end fs rest :
  records (Reader EAT_CRNL "" 0 fs) (chars true (String LF rest))
  = rs ← records parse_reset (chars false rest); Ok (rev fs :: rs).
Proof. by rewrite chars_cons. Qed.

Lemma field_then_comma f fs p rest :
  fits f →
  records (Reader START_FIELD "" 0 fs) (chars p (write_field f +:+ String COMMA rest))
  = records (Reader START_FIELD "" 0 (f :: fs)) (chars true rest).
Proof.
  intros Hfits.
  destruct (written_field f fs p COMMA rest Hfits) as (s & Hs & ->).
  rewrite chars_cons, ends_line_plain by reflexivity.
  by rewrite records_char, comma_ends_field, bind_Ok, rev_rev_app.
Qed.

Lemma field_then_crlf f fs p rest :
  fits f →
  records (Reader START_FIELD "" 0 fs)
          (chars p (write_field f +:+ String CR (String LF rest)))
  = rs ← records parse_reset (chars false rest); Ok (rev (f :: fs) :: rs).
Proof.
  intros Hfits.
  destruct (written_field f fs p CR (String LF rest) Hfits) as (s & Hs & ->).
  rewrite chars_cons. change (ends_line CR (String LF rest)) with false. cbv iota.
  by rewrite records_char, cr_ends_field, bind_Ok, rev_rev_app, line_end.
Qed.

(** The fields of a written line from some field on. *)
Lemma written_fields fs : ∀ saved p rest,
  fs ≠ [] → Forall fits fs →
  records (Reader START_FIELD "" 0 saved)
          (chars p (join_fields fs +:+ String CR (String LF rest)))
  = rs ← records parse_reset (chars false rest); Ok ((rev saved ++ fs) :: rs).
Proof.
  induction fs as [|f fs IH]; intros saved p rest Hne Hfits; [done |].
  apply Forall_cons in Hfits as [Hf Hfits].
  destruct fs as [|f' fs].
  - cbn [join_fields]. by rewrite field_then_crlf by done.
  - change (join_fields (f :: f' :: fs))
      with (write_field f +:+ String COMMA (join_fields (f' :: fs))).
    rewrite append_assoc, append_cons, field_then_comma by done.
    rewrite IH by done. cbn [rev]. by rewrite <- app_assoc.
Qed.

Lemma write_field_empty f : write_field f = "" → f = "".
Proof. unfold write_field. by destruct (needs_quotes f). Qed.

(** Only the line of one empty field joins to nothing. *)
Lemma join_fields_empty fs : fs ≠ [] → join_fields fs = "" → fs = [""].
Proof.
  destruct fs as [|f [|f' fs]]; [done | |].
  - intros _ ->%write_field_empty. done.
  - intros _ H.
    change (join_fields (f :: f' :: fs))
      with (write_field f +:+ String COMMA (join_fields (f' :: fs))) in H.
    by destruct (write_field f).
Qed.

(** A written line begins with no line end. *)
Lemma join_fields_head fs c s :
  join_fields fs = String c s → is_newline c = false.
Proof.
  assert (Hfield : ∀ f c s, write_field f = String c s → is_newline c = false).
  { intros f c' s'. unfold write_field. destruct (needs_quotes f) eqn:Hq.
    - by intros [= <- _].
    - destruct f as [|x f]; [done |]. intros [= <- _].
      cbn [needs_quotes] in Hq. apply orb_false_elim in Hq as [Hx _].
      by apply plain_not_newline. }
  destruct fs as [|f [|f' fs]]; [done | apply Hfield |].
  change (join_fields (f :: f' :: fs))
    with (write_field f +:+ String COMMA (join_fields (f' :: fs))).
  destruct (write_field f) as [|x w] eqn:Hw.
  - rewrite append_nil_l. by intros [= <- _].
  - rewrite append_cons. intros [= <- _]. by apply (Hfield f x w).
Qed.

(** At the start of a record a character that ends no line starts a field. *)
Lemma record_starts_field c cs :
  is_newline c = false →
  records parse_reset (Some c :: cs)
  = records (Reader START_FIELD "" 0 []) (Some c :: cs).
Proof.
  intros Hc. rewrite !records_char. f_equal.
  unfold parse_reset, parse_process_char. cbn [st]. by rewrite Hc.
Qed.

(** One written line, read from the start of a record. *)
Lemma written_record fs rest :
  Forall fits fs →
  records parse_reset (chars false (writerow fs +:+ rest))
  = rs ← records parse_reset (chars false rest); Ok (fs :: rs).
Proof.
  intros Hfits.
  destruct (decide (fs = [])) as [-> | Hne].
  { change (writerow []) with (String CR (String LF "")).
    rewrite !append_cons, append_nil_l. by rewrite !chars_cons. }
  destruct (decide (join_fields fs = "")) as [Hjoin | Hjoin].
  { apply join_fields_empty in Hjoin as ->; [| done].
    change (writerow [""]) with (String QUOTE (String QUOTE (String CR (String LF "")))).
    rewrite !append_cons, append_nil_l. by rewrite !chars_cons. }
  unfold writerow. rewrite (bool_decide_true (fs ≠ [])) by done.
  rewrite (bool_decide_false (join_fields fs = "")) by done. cbn [andb].
  rewrite append_assoc, !append_cons, append_nil_l.
  destruct (join_fields fs) as [|c s] eqn:Hj; [done |].
  rewrite append_cons, chars_cons, record_starts_field
    by by apply (join_fields_head fs c s).
  rewrite <- chars_cons with (p := false), <- append_cons, <- Hj.
  by rewrite written_fields.
Qed.

(** Reading what was written gives the records back. *)
Lemma read_written recs :
  Forall (Forall fits) recs → Csv.read (written recs) = Ok recs.
Proof.
  unfold Csv.read. induction recs as [|fs recs IH]; intros Hfits; [done |].
  apply Forall_cons in Hfits as [Hfs Hrecs].
  cbn [written]. rewrite written_record by done. by rewrite IH.
Qed.

End csv.

(** ** Writing a dataset and reading it back *)

Section round_trip.

Import Spec.

Lemma filter_all {A} (P : A → Prop) `{∀ x, Decision (P x)} (l : list A) :
  Forall P l → filter P l = l.
Proof.
  induction 1 as [|x l Hx Hl IH]; [done |].
  by rewrite filter_cons, decide_True, IH.
Qed.

Lemma header_lookup hs : ∀ (d : row) h,
  foldl (λ (d : row) key, <[key := key]> d) d hs !! h
  = if decide (h ∈ hs) then Some h else d !! h.
Proof.
  induction hs as [|x hs IH]; intros d h; cbn [foldl].
  - by rewrite decide_False by apply not_elem_of_nil.
  - rewrite IH. destruct (decide (h ∈ hs)) as [Hin | Hnin].
    + by rewrite decide_True by by right.
    + destruct (decide (x = h)) as [-> | Hne].
      * rewrite lookup_insert_eq. by rewrite decide_True by by left.
      * rewrite lookup_insert_ne by done.
        rewrite decide_False; [done |]. by intros [-> | ?]%elem_of_cons.
Qed.

(** The header line holds the field names. *)
Lemma dict_to_list_header hs :
  DictWriter.dict_to_list hs (DictWriter.header hs) = hs.
Proof.
  unfold DictWriter.dict_to_list, DictWriter.header.
  transitivity (id <$> hs); [| apply list_fmap_id]. apply list_fmap_ext.
  intros i h Hh. rewrite header_lookup.
  by rewrite decide_True by by eapply list_elem_of_lookup_2.
Qed.

Lemma writerows_written hs rows :
  DictWriter.writerows hs rows = written (DictWriter.dict_to_list hs <$> rows).
Proof. induction rows as [|r rows IH]; [done |]. cbn. by rewrite IH. Qed.

Lemma csv_text_written hs rows :
  csv_text hs rows = written (hs :: (DictWriter.dict_to_list hs <$> rows)).
Proof.
  unfold csv_text, DictWriter.writeheader.
  by rewrite dict_to_list_header, writerows_written.
Qed.

(** [dict(zip(fieldnames, row))] for a row that has a cell for each name. *)
Lemma zip_dict_lookup (f : string → string) hs : ∀ (d : pyrow) h,
  foldl (λ (d : pyrow) p, <[Some p.1 := PStr p.2]> d) d (zip hs (f <$> hs)) !! Some h
  = if decide (h ∈ hs) then Some (PStr (f h)) else d !! Some h.
Proof.
  induction hs as [|x hs IH]; intros d h; cbn [foldl zip zip_with fmap list_fmap].
  - by rewrite decide_False by apply not_elem_of_nil.
  - rewrite IH. cbn [fst snd]. destruct (decide (h ∈ hs)) as [Hin | Hnin].
    + by rewrite decide_True by by right.
    + destruct (decide (x = h)) as [-> | Hne].
      * rewrite lookup_insert_eq. by rewrite decide_True by by left.
      * rewrite lookup_insert_ne by congruence.
        rewrite decide_False; [done |]. by intros [-> | ?]%elem_of_cons.
Qed.

Lemma next_dict_lookup hs (r : row) h :
  h ∈ hs →
  DictReader.next_dict hs (DictWriter.dict_to_list hs r) !! Some h
  = Some (PStr (default "" (r !! h))).
Proof.
  intros Hin. unfold DictReader.next_dict, DictWriter.dict_to_list.
  rewrite length_fmap, Nat.ltb_irrefl.
  unfold DictReader.zip_dict.
  rewrite (zip_dict_lookup (λ key, default "" (r !! key))).
  by rewrite decide_True.
Qed.

Lemma or_empty_text s : or_empty (PStr s) = PStr s.
Proof.
  unfold or_empty, PyStr.truthy. case_bool_decide as Hs; [done |]. by subst.
Qed.

(** What [_read_csv] makes of the records of a file that was written. *)
Lemma dict_reader_written hs (rows : list row) :
  hs ≠ [] →
  DictReader.read (hs :: (DictWriter.dict_to_list hs <$> rows))
  = (Some hs, (λ r, DictReader.next_dict hs (DictWriter.dict_to_list hs r)) <$> rows).
Proof.
  intros Hne. unfold DictReader.read. f_equal.
  rewrite filter_all.
  - by rewrite <- list_fmap_compose.
  - apply Forall_fmap, Forall_forall. intros r _. cbn.
    unfold DictWriter.dict_to_list. by destruct hs.
Qed.

(** C7, as the code has it. On a machine that lets the file be written and
    whose [utf-8-sig] codec reads back the text it was given, a dataset with
    at least one header, whose header names and cell texts (the empty text
    for a header a row lacks) are no longer than the reader's field limit of
    131072 characters, comes back from the CSV writer and the CSV reader
    with the same header list and as many rows, each with the same text
    under every header. *)
Theorem C7_csv_round_trip_within_field_limit
    (w : world) (path : string) (headers : list string) (rows : list row) :
  writable w path = true →
  decode w utf_8_sig (BOM +:+ csv_text headers rows) = Some (csv_text headers rows) →
  headers ≠ [] →
  Forall fits headers →
  Forall (λ r : row, Forall (λ h, fits (default "" (r !! h))) headers) rows →
  round_trips w path headers rows.
Proof.
  intros Hw Hcodec Hne Hhs Hcells. unfold round_trips, write_csv, open_write.
  rewrite Hw. eexists _, _. split; [reflexivity |].
  assert (Hread : Csv.read (csv_text headers rows)
                  = Ok (headers :: (DictWriter.dict_to_list headers <$> rows))).
  { rewrite csv_text_written. apply read_written. constructor; [done |].
    apply Forall_fmap. eapply Forall_impl; [exact Hcells |].
    intros r Hr. unfold DictWriter.dict_to_list. by apply Forall_fmap. }
  split; [| split].
  - unfold _read_csv. cbn [try_encodings].
    unfold read_csv_as at 1, open_read. cbn [files decode].
    rewrite lookup_insert_eq, Hcodec. cbn [mbind res_bind].
    rewrite Hread. cbn [mbind res_bind].
    rewrite dict_reader_written by done. cbn [default]. reflexivity.
  - by rewrite !length_fmap.
  - intros i r r' h Hr Hr' Hin.
    rewrite list_lookup_fmap, list_lookup_fmap, Hr in Hr'.
    injection Hr' as <-.
    rewrite lookup_fmap, next_dict_lookup by done. cbn [fmap option_fmap option_map].
    by rewrite or_empty_text.
Qed.

End round_trip.

Lemma C7_witness :
  Spec.round_trips Example.empty_machine "C:\out\result.csv"
    ["户号"; "name"; "note"] Example.sample_rows.
Proof.
  apply (C7_csv_round_trip_within_field_limit Example.empty_machine
           "C:\out\result.csv" ["户号"; "name"; "note"] Example.sample_rows).
  - reflexivity.
  - by vm_compute.
  - done.
  - apply (bool_decide_unpack _). by vm_compute.
  - apply (bool_decide_unpack _). by vm_compute.
Defined.

(** ** The cells the CSV reader returns under the headers *)

Section reader_cells.

(** a value the reader can hold under a column name before [v or ""] *)
Local Abbreviation cell_like v := (v = PNone ∨ ∃ s, v = PStr s).

Lemma zip_dict_cells fieldnames line : ∀ (d : pyrow),
  (∀ k v, d !! Some k = Some v → cell_like v) →
  ∀ k v,
    foldl (λ (d : pyrow) p, <[Some p.1 := PStr p.2]> d) d (zip fieldnames line)
      !! Some k = Some v →
    cell_like v.
Proof.
  generalize (zip fieldnames line) as ps. intros ps.
  induction ps as [|p ps IH]; intros d Hd k v; cbn [foldl]; [apply Hd |].
  apply IH. intros k' v'. destruct (decide (p.1 = k')) as [<- | Hne].
  - rewrite lookup_insert_eq. intros [= <-]. right. by eexists.
  - rewrite lookup_insert_ne by congruence. apply Hd.
Qed.

Lemma rest_cells keys : ∀ (d : pyrow),
  (∀ k v, d !! Some k = Some v → cell_like v) →
  ∀ k v,
    foldl (λ (d : pyrow) key, <[Some key := PNone]> d) d keys !! Some k = Some v →
    cell_like v.
Proof.
  induction keys as [|x keys IH]; intros d Hd k v; cbn [foldl]; [apply Hd |].
  apply IH. intros k' v'. destruct (decide (x = k')) as [<- | Hne].
  - rewrite lookup_insert_eq. intros [= <-]. by left.
  - rewrite lookup_insert_ne by congruence. apply Hd.
Qed.

Lemma next_dict_cells fieldnames line k v :
  DictReader.next_dict fieldnames line !! Some k = Some v → cell_like v.
Proof.
  assert (Hzip : ∀ k v, DictReader.zip_dict fieldnames line !! Some k = Some v
                        → cell_like v).
  { apply zip_dict_cells. intros k' v'. by rewrite lookup_empty. }
  unfold DictReader.next_dict. destruct (_ <? _).
  - rewrite lookup_insert_ne by done. apply Hzip.
  - destruct (_ <? _); [by apply rest_cells | apply Hzip].
Qed.

(** Whatever the file holds, the value [_read_csv] returns under a column
    name is a text: a list can only stand under the key [None]. *)
Lemma read_csv_header_cells_are_text w path headers rows :
  _read_csv w path = Ok (headers, rows) →
  ∀ (r : pyrow) k v, r ∈ rows → r !! Some k = Some v → ∃ s, v = PStr s.
Proof.
  intros (enc & _ & Hread)%try_encodings_Ok r k v Hr Hk.
  unfold read_csv_as in Hread.
  destruct (open_read w path enc) as [text|]; cbn [mbind res_bind] in Hread; [| done].
  destruct (Csv.read text) as [recs|]; cbn [mbind res_bind] in Hread; [| done].
  destruct (DictReader.read recs) as [fieldnames lines] eqn:Hrecs.
  injection Hread as _ <-.
  apply list_elem_of_fmap in Hr as (d & -> & Hd).
  rewrite lookup_fmap in Hk.
  destruct (d !! Some k) as [v0|] eqn:Hv0; [| done]. injection Hk as <-.
  assert (cell_like v0) as [-> | [s ->]].
  { unfold DictReader.read in Hrecs. destruct recs as [|fs recs].
    - injection Hrecs as _ <-. by apply elem_of_nil in Hd.
    - injection Hrecs as _ <-.
      apply list_elem_of_fmap in Hd as (line & -> & _).
      by apply (next_dict_cells fs line k). }
  - by exists "".
  - exists s. apply or_empty_text.
Qed.

End reader_cells.

(** ** A field beyond the reader's limit *)

Section field_limit.

Import Csv Spec.

Lemma iter_string_app n c s :
  N.iter n (String c) s = N.iter n (String c) "" +:+ s.
Proof.
  induction n as [|n IH] using N.peano_ind; [done |].
  by rewrite !N.iter_succ, IH.
Qed.

Lemma char_len_iter n c :
  char_len (N.iter n (String c) "") = (n * weight c)%N.
Proof.
  induction n as [|n IH] using N.peano_ind; [done |].
  rewrite N.iter_succ, char_len_cons, IH. lia.
Qed.

Lemma needs_quotes_iter n c :
  special c = false → needs_quotes (N.iter n (String c) "") = false.
Proof.
  intros Hc. induction n as [|n IH] using N.peano_ind; [done |].
  rewrite N.iter_succ. cbn [needs_quotes]. by rewrite Hc, IH.
Qed.

Lemma all_ascii_iter n c s :
  byte_in 0 127 c = true →
  Codec.all_ascii (N.iter n (String c) s) = Codec.all_ascii s.
Proof.
  intros Hc. induction n as [|n IH] using N.peano_ind; [done |].
  rewrite N.iter_succ. cbn [Codec.all_ascii]. by rewrite Hc, IH.
Qed.

Lemma all_ascii_app s t :
  Codec.all_ascii (s +:+ t) = Codec.all_ascii s && Codec.all_ascii t.
Proof.
  induction s as [|c s IH]; [done |].
  rewrite append_cons. cbn [Codec.all_ascii]. by rewrite IH, andb_assoc.
Qed.

Lemma utf8_valid_ascii s : Codec.all_ascii s = true → Codec.utf8_valid s = true.
Proof.
  induction s as [|c s IH]; [done |]. cbn [Codec.all_ascii Codec.utf8_valid].
  intros [Hc Hs]%andb_true_iff. rewrite Hc. by apply IH.
Qed.

Lemma decode_latin_1_ascii s :
  Codec.all_ascii s = true → Codec.decode_latin_1 s = s.
Proof.
  induction s as [|c s IH]; [done |]. cbn [Codec.all_ascii Codec.decode_latin_1].
  intros [Hc Hs]%andb_true_iff. rewrite (IH Hs).
  unfold byte_in in Hc. apply andb_true_iff in Hc as [_ Hc%Nat.leb_le].
  destruct (Nat.ltb_spec (nat_of_ascii c) 128); [done | lia].
Qed.

(** One character more than the limit allows ends the reading. *)
Lemma oversized_field f : ∀ fld n fs p c rest,
  needs_quotes f = false → special c = false → weight c = 1%N →
  (n + char_len f = field_limit)%N →
  records (Reader IN_FIELD fld n fs) (chars p (f +:+ String c rest))
  = Raise (CsvError "field larger than field limit (131072)").
Proof.
  intros fld n fs p c rest Hf Hc Hw Hn.
  rewrite plain_tail by (done || lia).
  rewrite chars_cons, records_char, field_plain by done.
  unfold parse_add_char, weight in *. cbn [field_len].
  destruct (continuation c); [done |].
  by rewrite Hn, N.leb_refl.
Qed.

(** A line that starts with the big cell cannot be read. *)
Lemma big_cell_refused rest :
  records parse_reset (chars false (Example.big_cell +:+ rest))
  = Raise (CsvError "field larger than field limit (131072)").
Proof.
  unfold Example.big_cell.
  change 131073%N with (N.succ 131072). rewrite N.iter_succ.
  change 131072%N with (N.succ 131071). rewrite N.iter_succ_r.
  rewrite iter_string_app, !append_cons, append_assoc, append_cons, append_nil_l.
  rewrite chars_cons, record_starts_field by done.
  rewrite records_char, field_starts_plain, bind_Ok by done.
  rewrite (ends_line_plain "x") by done.
  apply oversized_field; [by apply needs_quotes_iter | done | done |].
  by rewrite char_len_iter.
Qed.

Lemma big_cell_plain : needs_quotes Example.big_cell = false.
Proof. by apply needs_quotes_iter. Qed.

Lemma big_cell_ascii : Codec.all_ascii Example.big_cell = true.
Proof. unfold Example.big_cell. by rewrite all_ascii_iter. Qed.

Lemma big_cell_nonempty : Example.big_cell ≠ "".
Proof.
  unfold Example.big_cell. change 131073%N with (N.succ 131072).
  by rewrite N.iter_succ.
Qed.

(** the file of one column [a] and one row, the cell [cell] *)
Lemma one_cell_text cell :
  needs_quotes cell = false → cell ≠ "" →
  csv_text ["a"] [ {[ "a" := cell ]} ]
  = writerow ["a"] +:+ (cell +:+ Example.CRLF).
Proof.
  intros Hplain Hne. rewrite csv_text_written. cbn [written fmap list_fmap].
  unfold DictWriter.dict_to_list. cbn [fmap list_fmap].
  rewrite lookup_singleton_eq. cbn [default]. change (id cell) with cell.
  rewrite append_empty_r. f_equal.
  unfold writerow. cbn [join_fields]. unfold write_field. rewrite Hplain.
  rewrite (bool_decide_false (cell = "")) by done. by rewrite andb_false_r.
Qed.

Lemma decode_sig_ascii t :
  Codec.all_ascii t = true → Codec.decode utf_8_sig (BOM +:+ t) = Some t.
Proof.
  intros Ht. change (Codec.decode utf_8_sig (BOM +:+ t)) with (Codec.decode_utf_8 t).
  unfold Codec.decode_utf_8. by rewrite utf8_valid_ascii.
Qed.

Lemma decode_utf_8_ascii t :
  Codec.all_ascii t = true → Codec.decode utf_8 (BOM +:+ t) = Some (BOM +:+ t).
Proof.
  intros Ht. cbn [Codec.decode]. unfold Codec.decode_utf_8.
  change (Codec.utf8_valid (BOM +:+ t)) with (Codec.utf8_valid t).
  by rewrite utf8_valid_ascii.
Qed.

Lemma decode_gbk_mark t : Codec.decode gbk (BOM +:+ t) = None.
Proof. done. Qed.

Lemma decode_gb2312_mark t : Codec.decode gb2312 (BOM +:+ t) = None.
Proof. done. Qed.

Lemma decode_latin_1_mark t :
  Codec.all_ascii t = true →
  Codec.decode latin_1 (BOM +:+ t) = Some (Codec.decode_latin_1 BOM +:+ t).
Proof.
  intros Ht. cbn [Codec.decode].
  change (Codec.decode_latin_1 (BOM +:+ t))
    with (Codec.decode_latin_1 BOM +:+ Codec.decode_latin_1 t).
  by rewrite (decode_latin_1_ascii t).
Qed.

(** What [_read_csv] does with a file that is there. *)
Lemma read_csv_as_file fs wr win dec ox path b enc :
  read_csv_as (World (<[path := Bytes b]> fs) wr win dec ox) path enc
  = text ← match dec enc b with
           | Some text => Ok text
           | None => Raise UnicodeDecodeError
           end;
    records ← Csv.read text;
    let '(fieldnames, rows) := DictReader.read records in
    Ok (default [] fieldnames, (λ r : pyrow, or_empty <$> r) <$> rows).
Proof. unfold read_csv_as, open_read. cbn [files decode]. by rewrite lookup_insert_eq. Qed.

Lemma write_csv_Ok w path headers rows w' :
  write_csv w path headers rows = Ok w' →
  w' = World (<[path := Bytes (BOM +:+ csv_text headers rows)]> (files w))
             (writable w) (windows w) (decode w) (openpyxl w).
Proof. unfold write_csv, open_write. destruct (writable w path); by intros [= <-]. Qed.

End field_limit.

Section refused_cell.

Import Csv Spec.

(** a cell that is written as it is and that the reader refuses *)
Variables (cell : string) (e : exn).
Hypothesis cell_plain : needs_quotes cell = false.
Hypothesis cell_nonempty : cell ≠ "".
Hypothesis cell_ascii : Codec.all_ascii cell = true.
Hypothesis cell_refused : ∀ rest,
  records parse_reset (chars false (cell +:+ rest)) = Raise e.

(** Read under any of the encodings, the text of the file is a header
    line and then the cell. *)
Lemma header_then_cell_refused header :
  needs_quotes header = false → header ≠ "" → fits header →
  Csv.read (header +:+ Example.CRLF +:+ (cell +:+ Example.CRLF)) = Raise e.
Proof.
  intros Hplain Hne Hfits.
  assert (Hrow : header +:+ Example.CRLF = writerow [header]).
  { unfold writerow. cbn [join_fields]. unfold write_field. rewrite Hplain.
    rewrite (bool_decide_false (header = "")) by done. by rewrite andb_false_r. }
  unfold Csv.read. rewrite <- append_assoc, Hrow.
  rewrite written_record by (by constructor).
  by rewrite cell_refused.
Qed.

Lemma writerow_a : writerow ["a"] = "a" +:+ Example.CRLF.
Proof. done. Qed.

(** Once the cell was written, no round of the encoding loop reads the
    file. *)
Lemma refused_cell_file_not_read path w' :
  write_csv Example.empty_machine path ["a"] [ {[ "a" := cell ]} ] = Ok w' →
  _read_csv w' path = Raise encoding_error.
Proof.
  intros ->%write_csv_Ok.
  rewrite one_cell_text, writerow_a by done.
  assert (Hascii : Codec.all_ascii (("a" +:+ Example.CRLF) +:+ (cell +:+ Example.CRLF))
                   = true).
  { by rewrite !all_ascii_app, cell_ascii. }
  apply try_encodings_all_fail. intros enc.
  rewrite read_csv_as_file.
  change (decode Example.empty_machine) with Codec.decode.
  destruct enc.
  - rewrite (decode_sig_ascii _ Hascii), bind_Ok.
    rewrite append_assoc.
    rewrite header_then_cell_refused by done. by eexists.
  - rewrite (decode_utf_8_ascii _ Hascii), bind_Ok.
    rewrite append_assoc, <- (append_assoc BOM).
    rewrite header_then_cell_refused by done. by eexists.
  - rewrite decode_gbk_mark. by eexists.
  - rewrite decode_gb2312_mark. by eexists.
  - rewrite (decode_latin_1_mark _ Hascii), bind_Ok.
    rewrite append_assoc, <- (append_assoc (Codec.decode_latin_1 BOM)).
    rewrite header_then_cell_refused by done. by eexists.
Qed.

End refused_cell.



(** C7 as it was stated fails twice.  With no header every row is written
    as a blank line, and the reader skips blank lines: the one row written
    does not come back.  And a cell of 131073 characters is written, but
    the reader refuses a field of that size in every round of the encoding
    loop, so reading the file back ends in the encoding error. *)
Lemma C7_counterexample :
  ¬ Spec.round_trips Example.empty_machine "out.csv" [] [∅] ∧
  ¬ Spec.round_trips Example.empty_machine "out.csv" ["a"]
      [ {[ "a" := Example.big_cell ]} ].
Proof.
  split; intros (w' & rows' & Hw & Hr & Hlen & _).
  - injection Hw as <-.
    assert (Hrun : _read_csv
                     (World (<["out.csv" := Bytes (BOM +:+ csv_text [] [∅])]> ∅)
                        (writable Example.empty_machine) (windows Example.empty_machine)
                        (decode Example.empty_machine) (openpyxl Example.empty_machine))
                     "out.csv"
                   = Ok ([], [])) by (vm_compute; reflexivity).
    pose proof (eq_trans (eq_sym Hrun) Hr) as Heq.
    injection Heq as <-. discriminate Hlen.
  - apply (refused_cell_file_not_read Example.big_cell _ big_cell_plain
             big_cell_nonempty big_cell_ascii big_cell_refused) in Hw.
    pose proof (eq_trans (eq_sym Hw) Hr) as Heq. discriminate Heq.
Qed.

Example empty_header_file_read_back :
  Spec.written_then_read Example.empty_machine "out.csv" [] [∅; ∅] = Ok ([], []).
Proof. by vm_compute. Qed.

(** * More about the code *)

(** ** The planner as a whole *)

Lemma steps_shape rs : ∀ hs plan,
  ∃ more,
    Planner.steps (hs, plan) rs
    = Some (hs ++ Shape.new_columns (Shape.with_source rs) more, plan ++ more) ∧
    Forall2 (λ r p, p.1 = full_var r ∧ (Spec.appends r = false → p.2 = masked_var r))
            (Shape.with_source rs) more.
Proof.
  unfold Shape.with_source.
  induction rs as [|r rs IH]; intros hs plan.
  - exists []. cbn. rewrite !app_nil_r. split; [done | constructor].
  - cbn [Planner.steps]. rewrite filter_cons.
    destruct (decide (full_var r = "")) as [Hsrc | Hsrc].
    + rewrite decide_False by (by intros ?). rewrite step_inert by done.
      cbn [mbind option_bind]. apply IH.
    + rewrite decide_True by done.
      destruct (Spec.appends r) eqn:Happ.
      * destruct (step_append hs plan r Hsrc Happ) as (w & -> & _).
        cbn [mbind option_bind].
        destruct (IH (hs ++ [w]) (plan ++ [(full_var r, w)])) as (more & -> & Hmore).
        exists ((full_var r, w) :: more). split.
        -- unfold Shape.new_columns. cbn [zip zip_with omap list_omap fst snd].
           rewrite Happ. by rewrite <- !app_assoc.
        -- constructor; [| done]. split; [done |]. by rewrite Happ.
      * rewrite step_overwrite by done. cbn [mbind option_bind].
        destruct (IH hs (plan ++ [(full_var r, masked_var r)])) as (more & -> & Hmore).
        exists ((full_var r, masked_var r) :: more). split.
        -- unfold Shape.new_columns. cbn [zip zip_with omap list_omap fst snd].
           rewrite Happ. by rewrite <- !app_assoc.
        -- by constructor.
Qed.

(** The planner always returns.  Its plan has one pair for each entry with a
    source column, in the order of the entries (entries without one leave no
    trace); the pair of an entry that does not append has the destination as
    it was chosen; and the headers it returns are the target headers
    followed by the write columns of the entries that append. *)
Theorem plan_one_pair_per_entry_with_source
    (masked_headers : list string) (entries : list mapping_row) :
  ∃ plan,
    Planner.plan masked_headers entries
    = Some (masked_headers ++ Shape.new_columns (Shape.with_source entries) plan,
            plan) ∧
    Forall2 (λ r p, p.1 = full_var r ∧ (Spec.appends r = false → p.2 = masked_var r))
            (Shape.with_source entries) plan.
Proof.
  destruct (steps_shape entries masked_headers []) as (more & Hsteps & Hmore).
  exists more. by split.
Qed.

Lemma steps_new_columns rs : ∀ hs plan,
  ∃ new more,
    Planner.steps (hs, plan) rs = Some (hs ++ new, plan ++ more) ∧
    NoDup new ∧ (∀ w, w ∈ new → w ∉ hs) ∧ (∀ w, w ∈ new → w ∈ more.*2).
Proof.
  induction rs as [|r rs IH]; intros hs plan.
  - exists [], []. cbn. rewrite !app_nil_r.
    repeat split; [constructor | by intros ? ?%elem_of_nil | by intros ? ?%elem_of_nil].
  - cbn [Planner.steps].
    destruct (decide (full_var r = "")) as [Hsrc | Hsrc].
    { rewrite step_inert by done. cbn [mbind option_bind]. apply IH. }
    destruct (Spec.appends r) eqn:Happ.
    + destruct (step_append hs plan r Hsrc Happ) as (w & -> & Hw & _).
      cbn [mbind option_bind].
      destruct (IH (hs ++ [w]) (plan ++ [(full_var r, w)]))
        as (new & more & -> & Hnd & Hnew & Hin).
      exists (w :: new), ((full_var r, w) :: more). rewrite <- !app_assoc.
      split; [done |]. split; [| split].
      * constructor; [| done]. intros Hwn. apply (Hnew w Hwn).
        apply elem_of_app. right. by left.
      * intros x [-> | Hx]%elem_of_cons; [done |].
        intros Hxh. apply (Hnew x Hx). apply elem_of_app. by left.
      * intros x [-> | Hx]%elem_of_cons; [by left |]. right. by apply Hin.
    + rewrite step_overwrite by done. cbn [mbind option_bind].
      destruct (IH hs (plan ++ [(full_var r, masked_var r)]))
        as (new & more & -> & Hnd & Hnew & Hin).
      exists new, ((full_var r, masked_var r) :: more). rewrite <- !app_assoc.
      split; [done |]. split; [done |]. split; [done |].
      intros x Hx. right. by apply Hin.
Qed.

(** The columns the planner adds are pairwise different, none of them is a
    target header, and each is the write column of a plan pair: a column
    that is appended never takes the place of a column that was there. *)
Theorem plan_appends_only_new_distinct_columns
    (masked_headers : list string) (entries : list mapping_row) :
  ∃ new plan,
    Planner.plan masked_headers entries = Some (masked_headers ++ new, plan) ∧
    NoDup new ∧
    (∀ w, w ∈ new → w ∉ masked_headers) ∧
    (∀ w, w ∈ new → w ∈ plan.*2).
Proof.
  destruct (steps_new_columns entries masked_headers [])
    as (new & more & Hsteps & Hrest).
  by exists new, more.
Qed.

(** ** The run as a whole *)

(** The run gives a warning, and leaves the store as it was, exactly when
    one of its three checks fails (a list not loaded, a key not chosen, no
    mapping line left); otherwise it computes its rows.  The planner's loop
    never runs out of the rounds it is given. *)
Theorem run_warns_exactly_when_a_check_fails (a : app) (h : store) :
  match _run a h with
  | (Warned _, h') => ¬ Spec.ready a ∧ h' = h
  | (Computed _, _) => Spec.ready a
  | (OutOfFuel, _) => False
  end.
Proof.
  unfold _run, Spec.ready, PyStr.truthy.
  case_bool_decide as Hf; [cbn; split; [by intros [? _] | done] |].
  case_bool_decide as Hm; [cbn; split; [by intros (_ & ? & _) | done] |].
  cbn [orb].
  case_bool_decide as Hfk; cbn [negb orb];
    [| cbn; split; [by intros (_ & _ & ? & _) | done]].
  case_bool_decide as Hmk; cbn [negb];
    [| cbn; split; [by intros (_ & _ & _ & ? & _) | done]].
  case_bool_decide as Hact.
  - cbn. split; [| done]. intros (_ & _ & _ & _ & (r & Hr & Hra)%Exists_exists).
    assert (r ∈ filter (λ r, active r = true) (mapping_rows a)) as Hin
      by by apply list_elem_of_filter.
    rewrite Hact in Hin. by apply elem_of_nil in Hin.
  - destruct (steps_total (filter (λ r, active r = true) (mapping_rows a))
                (masked_headers a, [])) as [[hs plan] Hplan].
    unfold Planner.plan. rewrite Hplan.
    destruct (Matcher.pass _ _ _ _ _) as [[h' outs] m].
    repeat split; [done | done | done | done |].
    destruct (filter (λ r, active r = true) (mapping_rows a)) as [|r rs] eqn:Hrs; [done |].
    assert (r ∈ filter (λ r, active r = true) (mapping_rows a)) as Hin
      by (rewrite Hrs; by left).
    apply list_elem_of_filter in Hin as [Hra Hr].
    apply Exists_exists. by exists r.
Qed.

Lemma match_row_counts masked_key lookup plan st tl :
  let st' := Matcher.match_row masked_key lookup plan st tl in
  length st'.1.2 = S (length st.1.2) ∧ st.2 ≤ st'.2 ≤ S st.2.
Proof.
  destruct st as [[h out] m]. unfold Matcher.match_row, Dict.copy. cbn.
  rewrite length_app. cbn. split; [lia |].
  destruct (Dict.truthy _ _); lia.
Qed.

(** The pass makes one row for each target row and counts at most each. *)
Lemma pass_counts masked_key lookup plan rows : ∀ st,
  let st' := foldl (Matcher.match_row masked_key lookup plan) st rows in
  length st'.1.2 = length st.1.2 + length rows ∧
  st.2 ≤ st'.2 ≤ st.2 + length rows.
Proof.
  induction rows as [|tl rows IH]; intros st; cbn [foldl]; cbn zeta.
  - cbn. lia.
  - specialize (IH (Matcher.match_row masked_key lookup plan st tl)). cbn zeta in IH.
    pose proof (match_row_counts masked_key lookup plan st tl) as Hstep.
    cbn zeta in Hstep. cbn [length]. lia.
Qed.

(** Whatever the lists hold, the counts a run reports add up: the total is
    the number of target rows, the matched rows are at most that many, and
    the unmatched rows are the rest, never a negative number. *)
Theorem run_counts_add_up (a : app) (h h' : store) (res : run_result) :
  _run a h = (Computed res, h') →
  total res = length (masked_rows a) ∧
  length (result_rows res) = length (masked_rows a) ∧
  matched_count res ≤ total res ∧
  (0 ≤ unmatched res)%Z ∧
  (Z.of_nat (matched_count res) + unmatched res = Z.of_nat (total res))%Z.
Proof.
  unfold _run. destruct (_ || _); [done |]. destruct (_ || _); [done |].
  destruct (bool_decide _); [done |].
  destruct (Planner.plan _ _) as [[hs plan]|]; [| done].
  pose proof (pass_counts (strip (masked_key_var a))
                (Lookup.build h (strip (full_key_var a)) (full_rows a)) plan
                (masked_rows a) (h, [], 0)) as Hc.
  cbn zeta in Hc. unfold Matcher.pass.
  destruct (foldl _ _ _) as [[h1 outs] m]. cbn in Hc.
  intros [= <- <-]. cbn. lia.
Qed.

Lemma run_counts_add_up_witness :
  total (RunResult ["uid"; "dept"] [("name", "dept")] [4; 5] 1 2 1) = 2 ∧
  length [4; 5] = 2 ∧
  1 ≤ 2 ∧ (0 ≤ 1)%Z ∧ (Z.of_nat 1 + 1 = Z.of_nat 2)%Z.
Proof.
  apply (run_counts_add_up Scenario.overwrite_app Scenario.h0
           (snd (_run Scenario.overwrite_app Scenario.h0))
           (RunResult ["uid"; "dept"] [("name", "dept")] [4; 5] 1 2 1)).
  by vm_compute.
Defined.

Lemma dom_output_row (d : row) src plan :
  dom (Spec.output_row d src plan) = dom d ∪ list_to_set plan.*2.
Proof.
  induction plan as [|p plan IH] using rev_ind.
  - cbn. by rewrite union_empty_r_L.
  - rewrite output_row_snoc, dom_insert_L, IH, fmap_app, list_to_set_app_L.
    cbn. apply set_eq. intros x.
    rewrite !elem_of_union, elem_of_singleton, elem_of_empty. tauto.
Qed.

(** The columns of an output row are the columns of its target row and the
    write columns of the plan, no more and no less: every planned column is
    there in every row, matched or not. *)
Theorem run_output_row_has_target_and_plan_columns (a : app) (h : store) :
  Spec.ready a →
  Spec.allocated h (full_rows a) →
  Spec.allocated h (masked_rows a) →
  ∃ res h',
    _run a h = (Computed res, h') ∧
    ∀ i tl, masked_rows a !! i = Some tl →
      ∃ ol, result_rows res !! i = Some ol ∧
            dom (Dict.deref h' ol)
            = dom (Dict.deref h tl) ∪ list_to_set (col_plan res).*2.
Proof.
  intros Hready Hfull Hmasked.
  destruct (run_computed a h Hready Hfull Hmasked)
    as (res & h' & Hrun & _ & _ & _ & _ & _ & Hrows & _).
  exists res, h'. split; [done |]. intros i tl Hi.
  destruct (Forall2_lookup_l _ _ _ _ _ Hrows Hi) as (ol & Hol & _ & Hrow).
  exists ol. split; [done |]. unfold Dict.deref at 1. rewrite Hrow. cbn [default].
  apply dom_output_row.
Qed.

Lemma run_output_row_has_target_and_plan_columns_witness :
  ∃ res h',
    _run Scenario.append_app Scenario.h0 = (Computed res, h') ∧
    ∀ i tl, masked_rows Scenario.append_app !! i = Some tl →
      ∃ ol, result_rows res !! i = Some ol ∧
            dom (Dict.deref h' ol)
            = dom (Dict.deref Scenario.h0 tl) ∪ list_to_set (col_plan res).*2.
Proof.
  apply (run_output_row_has_target_and_plan_columns Scenario.append_app Scenario.h0).
  - repeat split; [done | done | by vm_compute | by vm_compute |].
    apply Exists_cons_hd. reflexivity.
  - apply (bool_decide_unpack _). by vm_compute.
  - apply (bool_decide_unpack _). by vm_compute.
Defined.

(** Every header the run hands to the writer is a target header or a column
    that every output row has: for a column the run added, no writer has to
    fall back on the empty cell of a missing key. *)
Theorem run_headers_are_target_headers_or_written (a : app) (h : store) :
  Spec.ready a →
  Spec.allocated h (full_rows a) →
  Spec.allocated h (masked_rows a) →
  ∃ res h',
    _run a h = (Computed res, h') ∧
    ∀ header, header ∈ result_headers res →
      header ∈ masked_headers a ∨
      ∀ ol, ol ∈ result_rows res → is_Some (Dict.deref h' ol !! header).
Proof.
  intros Hready Hfull Hmasked.
  destruct (run_computed a h Hready Hfull Hmasked)
    as (res & h' & Hrun & Hplan & _ & _ & _ & _ & Hrows & _).
  exists res, h'. split; [done |]. intros header Hin.
  destruct (steps_new_columns (filter (λ r, active r = true) (mapping_rows a))
              (masked_headers a) []) as (new & more & Hsteps & _ & _ & Hnew).
  unfold Planner.plan in Hplan. rewrite Hsteps in Hplan.
  injection Hplan as Hhs Hp. rewrite <- Hhs in Hin. cbn in Hp.
  apply elem_of_app in Hin as [Hin | Hin]; [by left | right].
  intros ol [i Hi]%list_elem_of_lookup.
  destruct (Forall2_lookup_r _ _ _ _ _ Hrows Hi) as (tl & _ & _ & Hrow).
  unfold Dict.deref. rewrite Hrow. cbn [default]. unfold id.
  rewrite <- elem_of_dom, dom_output_row, <- Hp.
  apply elem_of_union. right. apply elem_of_list_to_set. by apply Hnew.
Qed.

Lemma run_headers_are_target_headers_or_written_witness :
  ∃ res h',
    _run Scenario.append_app Scenario.h0 = (Computed res, h') ∧
    ∀ header, header ∈ result_headers res →
      header ∈ masked_headers Scenario.append_app ∨
      ∀ ol, ol ∈ result_rows res → is_Some (Dict.deref h' ol !! header).
Proof.
  apply (run_headers_are_target_headers_or_written Scenario.append_app Scenario.h0).
  - repeat split; [done | done | by vm_compute | by vm_compute |].
    apply Exists_cons_hd. reflexivity.
  - apply (bool_decide_unpack _). by vm_compute.
  - apply (bool_decide_unpack _). by vm_compute.
Defined.

(** ** Running twice *)

Lemma filter_iff_in {A} (P Q : A → Prop) `{∀ x, Decision (P x)}
    `{∀ x, Decision (Q x)} (l : list A) :
  (∀ x, x ∈ l → P x ↔ Q x) → filter P l = filter Q l.
Proof.
  induction l as [|x l IH]; intros HPQ; [done |].
  rewrite !filter_cons, IH by (intros y Hy; apply HPQ; by right).
  destruct (decide (P x)) as [HP | HP].
  - by rewrite decide_True by (apply HPQ; [by left | done]).
  - rewrite decide_False; [done |]. intros HQ. apply HP, HPQ; [by left | done].
Qed.

Section run_again.

Import Spec.

Variables (h h' : store).
Hypothesis Hsub : h ⊆ h'.

Lemma key_of_weaken key l :
  is_Some (h !! l) → key_of h' key l = key_of h key l.
Proof.
  intros Hl. unfold key_of, Dict.get. by rewrite (deref_weaken h h' l).
Qed.

Lemma allocated_weaken ls : allocated h ls → allocated h' ls.
Proof.
  unfold allocated. intros Hall. eapply Forall_impl; [exact Hall |].
  intros l [d Hd]. exists d. by apply (lookup_weaken h).
Qed.

Lemma build_weaken key rows : ∀ acc,
  allocated h rows →
  foldl (Lookup.add h' key) acc rows = foldl (Lookup.add h key) acc rows.
Proof.
  induction rows as [|l rows IH]; intros acc Hall; [done |].
  apply Forall_cons in Hall as [Hl Hall]. cbn [foldl].
  rewrite IH by done. f_equal. unfold Lookup.add, Dict.get.
  by rewrite (deref_weaken h h' l).
Qed.

Lemma source_row_weaken key rows k :
  allocated h rows →
  source_row h' key rows k = source_row h key rows k.
Proof.
  intros Hall. unfold source_row, Lookup.build. rewrite build_weaken by done.
  fold (Lookup.build h key rows).
  destruct (Lookup.build h key rows !! k) as [l|] eqn:Hl; [| done].
  apply build_lookup_elem in Hl as (Hin & _).
  unfold allocated in Hall. rewrite Forall_forall in Hall.
  cbn. by rewrite (deref_weaken h h' l Hsub) by by apply Hall.
Qed.

End run_again.

(** Running the export again on the store the first run left gives the same
    headers, plan and counts, and rows with the same contents; the rows of
    the first run are still as they were. *)
Theorem run_again_gives_the_same_rows (a : app) (h h1 : store) (res : run_result) :
  Spec.ready a →
  Spec.allocated h (full_rows a) →
  Spec.allocated h (masked_rows a) →
  _run a h = (Computed res, h1) →
  ∃ res2 h2,
    _run a h1 = (Computed res2, h2) ∧
    result_headers res2 = result_headers res ∧
    col_plan res2 = col_plan res ∧
    matched_count res2 = matched_count res ∧
    total res2 = total res ∧
    unmatched res2 = unmatched res ∧
    Forall2 (λ o1 o2, h2 !! o2 = h1 !! o1 ∧ h2 !! o1 = h1 !! o1 ∧ o1 ≠ o2)
            (result_rows res) (result_rows res2).
Proof.
  intros Hready Hfull Hmasked Hrun.
  destruct (run_computed a h Hready Hfull Hmasked)
    as (res' & h1' & Hrun' & Hplan & Hcount & Htotal & Hun & Hsub & Hrows & _).
  rewrite Hrun in Hrun'. injection Hrun' as <- <-.
  destruct (run_computed a h1 Hready (allocated_weaken h h1 Hsub _ Hfull)
              (allocated_weaken h h1 Hsub _ Hmasked))
    as (res2 & h2 & Hrun2 & Hplan2 & Hcount2 & Htotal2 & Hun2 & Hsub2 & Hrows2 & _).
  exists res2, h2. split; [done |].
  rewrite Hplan in Hplan2. injection Hplan2 as Hhs Hp.
  assert (Hlen : length (result_rows res2) = length (result_rows res)).
  { rewrite <- (Forall2_length _ _ _ Hrows2). by rewrite <- (Forall2_length _ _ _ Hrows). }
  assert (Hm : matched_count res2 = matched_count res).
  { rewrite Hcount, Hcount2. f_equal. apply filter_iff_in. intros tl Htl.
    unfold Spec.allocated in Hmasked. rewrite Forall_forall in Hmasked.
    rewrite <- !source_row_is_Some.
    rewrite (key_of_weaken h h1 Hsub) by by apply Hmasked.
    by rewrite (source_row_weaken h h1 Hsub). }
  split; [done |]. split; [done |]. split; [done |].
  split; [congruence |]. split; [congruence |].
  apply Forall2_same_length_lookup. split; [done |].
  intros i o1 o2 Ho1 Ho2.
  destruct (Forall2_lookup_r _ _ _ _ _ Hrows Ho1) as (tl & Htl & Hnew1 & Hrow1).
  destruct (Forall2_lookup_r _ _ _ _ _ Hrows2 Ho2) as (tl' & Htl' & Hnew2 & Hrow2).
  rewrite Htl in Htl'. injection Htl' as <-.
  assert (Hal : is_Some (h !! tl)).
  { unfold Spec.allocated in Hmasked. rewrite Forall_forall in Hmasked.
    apply Hmasked. by eapply list_elem_of_lookup_2. }
  split; [| split].
  - rewrite Hrow1, Hrow2, <- Hp. f_equal.
    rewrite (key_of_weaken h h1 Hsub) by done.
    rewrite (source_row_weaken h h1 Hsub) by done.
    by rewrite (deref_weaken h h1 tl).
  - rewrite Hrow1. by apply (lookup_weaken h1).
  - intros ->. apply Hnew2. apply elem_of_dom. by rewrite Hrow1.
Qed.

Lemma run_again_gives_the_same_rows_witness :
  ∃ res2 h2,
    _run Scenario.overwrite_app (snd (_run Scenario.overwrite_app Scenario.h0))
    = (Computed res2, h2) ∧
    result_headers res2 = ["uid"; "dept"] ∧
    col_plan res2 = [("name", "dept")] ∧
    matched_count res2 = 1 ∧
    total res2 = 2 ∧
    unmatched res2 = 1%Z ∧
    Forall2 (λ o1 o2,
               h2 !! o2 = snd (_run Scenario.overwrite_app Scenario.h0) !! o1 ∧
               h2 !! o1 = snd (_run Scenario.overwrite_app Scenario.h0) !! o1 ∧
               o1 ≠ o2)
            [4; 5] (result_rows res2).
Proof.
  apply (run_again_gives_the_same_rows Scenario.overwrite_app Scenario.h0
           (snd (_run Scenario.overwrite_app Scenario.h0))
           (RunResult ["uid"; "dept"] [("name", "dept")] [4; 5] 1 2 1)).
  - repeat split; [done | done | by vm_compute | by vm_compute |].
    apply Exists_cons_hd. reflexivity.
  - apply (bool_decide_unpack _). by vm_compute.
  - apply (bool_decide_unpack _). by vm_compute.
  - by vm_compute.
Defined.

(** ** The mapping editor and the run *)

Section editor.

Import Editor.

Lemma with_own_mapping_rows a : with_mapping_rows a (mapping_rows a) = a.
Proof. by destruct a. Qed.

(** The run looks at the mapping lines only through the lines in place. *)
Lemma run_reads_active_lines a (rs rs' : list mapping_row) h :
  filter (λ r, active r = true) rs = filter (λ r, active r = true) rs' →
  _run (with_mapping_rows a rs) h = _run (with_mapping_rows a rs') h.
Proof. intros Heq. unfold _run. cbn. by rewrite Heq. Qed.

Lemma delete_beyond {A} (l : list A) (i : nat) : length l ≤ i → delete i l = l.
Proof.
  intros Hi. rewrite delete_take_drop, take_ge, drop_ge by lia. apply app_nil_r.
Qed.

Lemma filter_deactivated (rs : list mapping_row) : ∀ idx : nat,
  filter (λ r, active r = true) (alter deactivate idx rs)
  = filter (λ r, active r = true) (delete idx rs).
Proof.
  induction rs as [|r rs IH]; intros [|idx]; [done | done | |].
  - change (alter deactivate 0 (r :: rs)) with (deactivate r :: rs).
    change (delete 0 (r :: rs)) with rs.
    by rewrite filter_cons, decide_False by done.
  - change (alter deactivate (S idx) (r :: rs)) with (r :: alter deactivate idx rs).
    change (delete (S idx) (r :: rs)) with (r :: delete idx rs).
    by rewrite !filter_cons, IH.
Qed.

End editor.

Lemma run_after_remove_row_ignores_the_line_aux (a : app) (idx : nat) (h : store) :
  length (mapping_rows (Editor._remove_row idx a)) = length (mapping_rows a) ∧
  _run (Editor._remove_row idx a) h
  = _run (Editor.with_mapping_rows a (delete idx (mapping_rows a))) h.
Proof.
  unfold Editor._remove_row. destruct (Nat.ltb_spec idx (length (mapping_rows a))).
  - split; [cbn; by rewrite length_alter |].
    apply run_reads_active_lines, filter_deactivated.
  - split; [done |]. rewrite (delete_beyond (mapping_rows a)) by done.
    by rewrite with_own_mapping_rows.
Qed.


(** A line that is added and then removed leaves the run as it was. *)
Theorem run_after_add_and_remove_is_unchanged (a : app) (h : store) :
  _run (Editor._remove_row (length (mapping_rows a)) (Editor._add_mapping_row a)) h
  = _run a h.
Proof.
  destruct (run_after_remove_row_ignores_the_line_aux (Editor._add_mapping_row a)
              (length (mapping_rows a)) h) as [_ ->].
  unfold Editor._add_mapping_row. cbn [mapping_rows Editor.with_mapping_rows].
  rewrite delete_middle, app_nil_r.
  rewrite <- (with_own_mapping_rows a) at 3. by apply run_reads_active_lines.
Qed.

(** A line that was just added, left at its defaults, never overwrites: it
    adds a column for the first reference header, under a name that is not
    among the headers planned so far (the header itself when it is free);
    with no reference header to show it leaves the plan as it is. *)
Theorem added_line_appends_first_reference_header
    (a : app) (hs : list string) (plan : list (string * string)) :
  Planner.plan (masked_headers a) (filter (λ r, active r = true) (mapping_rows a))
  = Some (hs, plan) →
  let a' := Editor._add_mapping_row a in
  let planned :=
    Planner.plan (masked_headers a') (filter (λ r, active r = true) (mapping_rows a')) in
  (Editor.first_header a = "" → planned = Some (hs, plan)) ∧
  (Editor.first_header a ≠ "" →
   ∃ w, planned = Some (hs ++ [w], plan ++ [(Editor.first_header a, w)]) ∧
        (w ∉ hs) ∧
        (Editor.first_header a ∉ hs → w = Editor.first_header a)).
Proof.
  intros Hplan a' planned. subst a' planned.
  unfold Editor._add_mapping_row. cbn [mapping_rows masked_headers Editor.with_mapping_rows].
  rewrite filter_app, filter_cons, decide_True, filter_nil by done.
  unfold Planner.plan in *. rewrite steps_app, Hplan.
  cbn [mbind option_bind Planner.steps].
  set (line := MappingRow (Editor.first_header a) "（新增列）" "overwrite" true).
  split.
  - intros Hsrc. by rewrite (step_inert hs plan line Hsrc).
  - intros Hsrc.
    destruct (step_append hs plan line Hsrc eq_refl) as (w & -> & Hw & Hfree & _).
    exists w. by repeat split.
Qed.

Lemma added_line_appends_first_reference_header_witness :
  let a' := Editor._add_mapping_row Scenario.overwrite_app in
  let planned :=
    Planner.plan (masked_headers a') (filter (λ r, active r = true) (mapping_rows a')) in
  (Editor.first_header Scenario.overwrite_app = "" →
   planned = Some (["uid"; "dept"], [("name", "dept")])) ∧
  (Editor.first_header Scenario.overwrite_app ≠ "" →
   ∃ w, planned = Some (["uid"; "dept"] ++ [w],
                        [("name", "dept")] ++ [(Editor.first_header Scenario.overwrite_app, w)]) ∧
        (w ∉ ["uid"; "dept"]) ∧
        (Editor.first_header Scenario.overwrite_app ∉ ["uid"; "dept"] →
         w = Editor.first_header Scenario.overwrite_app)).
Proof.
  apply (added_line_appends_first_reference_header Scenario.overwrite_app
           ["uid"; "dept"] [("name", "dept")]).
  reflexivity.
Defined.

(** ** Dictionaries filled key by key *)

Section filled.

Context {K V A : Type} `{Countable K}.
Variables (g : A → K) (v : A → V).

(** the keys of a dictionary after a loop of assignments *)
Lemma foldl_insert_is_Some ps : ∀ (d : gmap K V) k,
  is_Some (foldl (λ d p, <[g p := v p]> d) d ps !! k)
  ↔ k ∈ g <$> ps ∨ is_Some (d !! k).
Proof.
  induction ps as [|p ps IH]; intros d k; cbn [foldl fmap list_fmap].
  - rewrite elem_of_nil. tauto.
  - rewrite IH, elem_of_cons, lookup_insert_is_Some.
    destruct (decide (g p = k)) as [<- | Hne]; [tauto |].
    intuition congruence.
Qed.

(** the last assignment to a key is the one that stays *)
Lemma foldl_insert_last ps (d : gmap K V) j p :
  ps !! j = Some p →
  (∀ j' p', j < j' → ps !! j' = Some p' → g p' ≠ g p) →
  foldl (λ d p, <[g p := v p]> d) d ps !! g p = Some (v p).
Proof.
  revert j p. induction ps as [|q ps IH] using rev_ind; intros j p Hj Hlast; [done |].
  rewrite foldl_app. cbn [foldl].
  destruct (decide (j = length ps)) as [-> | Hne].
  - rewrite lookup_app_r, Nat.sub_diag in Hj by done. injection Hj as ->.
    apply lookup_insert_eq.
  - assert (Hlt : j < length ps).
    { apply lookup_lt_Some in Hj. rewrite length_app in Hj. cbn in Hj. lia. }
    rewrite lookup_app_l in Hj by done.
    rewrite lookup_insert_ne.
    + apply (IH j); [done |]. intros j' p' Hjj' Hp'. apply (Hlast j'); [done |].
      rewrite lookup_app_l; [done |]. by eapply lookup_lt_Some.
    + apply (Hlast (length ps)); [done |].
      by rewrite lookup_app_r, Nat.sub_diag.
Qed.

End filled.

(** ** The CSV reader's rows *)

Lemma try_encodings_raises_encoding_error w path encs e :
  try_encodings w path encs = Raise e → e = encoding_error.
Proof.
  induction encs as [|enc encs IH]; cbn [try_encodings]; [by intros [= <-] |].
  by destruct (read_csv_as w path enc).
Qed.

(** Whatever goes wrong while a [.csv] file is read (the file is not there,
    it may not be read, its bytes do not decode, the [csv] module refuses a
    line), [read_file] either returns a dataset or raises the one error that
    says the encoding was not recognised: no other error of the CSV branch
    reaches the caller. *)
Theorem read_file_csv_raises_nothing_but_the_encoding_error (w : world) (path : string) :
  OsPath.lower (OsPath.splitext_ext (windows w) path) = ".csv" →
  (∃ dataset, read_file w path = Ok dataset) ∨ read_file w path = Raise encoding_error.
Proof.
  intros Hext. unfold read_file. rewrite Hext, bool_decide_true by done.
  destruct (_read_csv w path) as [dataset | e] eqn:Hread; [left; by eexists |].
  right. f_equal. by eapply try_encodings_raises_encoding_error.
Qed.

Lemma read_file_csv_raises_nothing_but_the_encoding_error_witness :
  OsPath.lower (OsPath.splitext_ext true "C:\in\LOCKED.CSV") = ".csv" ∧
  ((∃ dataset, read_file (Example.machine {[ "C:\in\LOCKED.CSV" := Unreadable ]} ∅)
                 "C:\in\LOCKED.CSV" = Ok dataset)
   ∨ read_file (Example.machine {[ "C:\in\LOCKED.CSV" := Unreadable ]} ∅)
       "C:\in\LOCKED.CSV" = Raise encoding_error).
Proof.
  split; [by vm_compute |].
  apply (read_file_csv_raises_nothing_but_the_encoding_error
           (Example.machine {[ "C:\in\LOCKED.CSV" := Unreadable ]} ∅) "C:\in\LOCKED.CSV").
  by vm_compute.
Defined.

Lemma zip_names (fs : list string) : ∀ line : list string,
  (zip fs line).*1 = take (length line) fs.
Proof.
  induction fs as [|f fs IH]; intros [|c line]; cbn; [done.. |]. f_equal. apply IH.
Qed.

Lemma zip_dict_names fs line k :
  is_Some (DictReader.zip_dict fs line !! Some k) ↔ k ∈ take (length line) fs.
Proof.
  unfold DictReader.zip_dict.
  rewrite (foldl_insert_is_Some (λ p : string * string, Some p.1) (λ p, PStr p.2)).
  rewrite lookup_empty, <- zip_names, !list_elem_of_fmap.
  split.
  - intros [(p & [= ->] & Hp) | []%is_Some_None]. by exists p.
  - intros (p & -> & Hp). left. by exists p.
Qed.

Lemma zip_dict_no_rest fs line : DictReader.zip_dict fs line !! None = None.
Proof.
  apply eq_None_not_Some. unfold DictReader.zip_dict.
  rewrite (foldl_insert_is_Some (λ p : string * string, Some p.1) (λ p, PStr p.2)).
  rewrite lookup_empty, list_elem_of_fmap.
  by intros [(p & [=] & _) | []%is_Some_None].
Qed.

(** The names of the dictionary the reader makes of a line are the field
    names, however many cells the line has. *)
Lemma next_dict_names fs line k :
  is_Some (DictReader.next_dict fs line !! Some k) ↔ k ∈ fs.
Proof.
  pose proof (zip_dict_names fs line k) as Hzip.
  unfold DictReader.next_dict.
  destruct (length fs <? length line) eqn:Hlong.
  - apply Nat.ltb_lt in Hlong. rewrite lookup_insert_ne by done.
    by rewrite take_ge in Hzip by lia.
  - apply Nat.ltb_ge in Hlong. destruct (length line <? length fs) eqn:Hshort.
    + rewrite (foldl_insert_is_Some (λ key : string, Some key) (λ _, PNone)).
      assert (Hsplit : k ∈ fs
                ↔ k ∈ take (length line) fs ∨ k ∈ drop (length line) fs).
      { by rewrite <- elem_of_app, take_drop. }
      rewrite Hzip, Hsplit, list_elem_of_fmap. split.
      * intros [(x & [= ->] & Hx) | Hk]; [by right | by left].
      * intros [Hk | Hk]; [by right | left; by exists k].
    + apply Nat.ltb_ge in Hshort. by rewrite take_ge in Hzip by lia.
Qed.

Lemma next_dict_rest fs line :
  DictReader.next_dict fs line !! None
  = if length fs <? length line then Some (PList (drop (length fs) line)) else None.
Proof.
  unfold DictReader.next_dict. destruct (length fs <? length line).
  - apply lookup_insert_eq.
  - destruct (length line <? length fs); [| apply zip_dict_no_rest].
    apply eq_None_not_Some.
    rewrite (foldl_insert_is_Some (λ key : string, Some key) (λ _, PNone)).
    rewrite list_elem_of_fmap, zip_dict_no_rest.
    by intros [(p & [=] & _) | []%is_Some_None].
Qed.

(** the rows [_read_csv] returns, by the lines they were made of *)
Lemma read_csv_rows (w : world) (path : string) (headers : list string)
    (rows : list pyrow) (r : pyrow) :
  _read_csv w path = Ok (headers, rows) → r ∈ rows →
  ∃ line, r = or_empty <$> DictReader.next_dict headers line.
Proof.
  intros (enc & _ & Hread)%try_encodings_Ok Hr.
  unfold read_csv_as in Hread.
  destruct (open_read w path enc) as [text|]; cbn [mbind res_bind] in Hread; [| done].
  destruct (Csv.read text) as [recs|]; cbn [mbind res_bind] in Hread; [| done].
  destruct (DictReader.read recs) as [fieldnames lines] eqn:Hrecs.
  injection Hread as <- <-.
  apply list_elem_of_fmap in Hr as (d & -> & Hd).
  unfold DictReader.read in Hrecs. destruct recs as [|fs recs].
  - injection Hrecs as _ <-. by apply elem_of_nil in Hd.
  - injection Hrecs as <- <-.
    apply list_elem_of_fmap in Hd as (line & -> & _). by exists line.
Qed.

(** Every row [_read_csv] returns has a text under each header, whether the
    line had a cell for it or not, and no other column name; if it holds
    anything more, it is the list of the cells beyond the header, which is
    not empty and stands under the key [None]. *)
Theorem read_csv_row_has_a_text_for_each_header_and_no_other_name
    (w : world) (path : string) (headers : list string) (rows : list pyrow) (r : pyrow) :
  _read_csv w path = Ok (headers, rows) →
  r ∈ rows →
  (∀ k, k ∈ headers → ∃ s, r !! Some k = Some (PStr s)) ∧
  (∀ k, is_Some (r !! Some k) → k ∈ headers) ∧
  (r !! None = None ∨ ∃ l, l ≠ [] ∧ r !! None = Some (PList l)).
Proof.
  intros Hread Hr.
  assert (Hnames : ∀ k, is_Some (r !! Some k) ↔ k ∈ headers).
  { intros k. destruct (read_csv_rows _ _ _ _ _ Hread Hr) as [line ->].
    by rewrite lookup_fmap, fmap_is_Some, next_dict_names. }
  split; [| split].
  - intros k [v Hv]%Hnames.
    destruct (read_csv_header_cells_are_text _ _ _ _ Hread r k v Hr Hv) as [s ->].
    by exists s.
  - intros k. apply Hnames.
  - destruct (read_csv_rows _ _ _ _ _ Hread Hr) as [line ->].
    rewrite lookup_fmap, next_dict_rest.
    destruct (length headers <? length line) eqn:Hlong; [| by left].
    apply Nat.ltb_lt in Hlong. right. exists (drop (length headers) line).
    assert (Hne : drop (length headers) line ≠ []).
    { intros Hnil%(f_equal length). rewrite length_drop in Hnil. cbn in Hnil. lia. }
    split; [done |]. cbn. by rewrite bool_decide_false.
Qed.

Lemma read_csv_row_has_a_text_for_each_header_and_no_other_name_witness :
  (∀ k, k ∈ ["a"; "b"] →
        ∃ s, ({[ Some "a" := PStr "1"; Some "b" := PStr "" ]} : pyrow) !! Some k
             = Some (PStr s)) ∧
  (∀ k, is_Some (({[ Some "a" := PStr "1"; Some "b" := PStr "" ]} : pyrow) !! Some k) →
        k ∈ ["a"; "b"]) ∧
  (({[ Some "a" := PStr "1"; Some "b" := PStr "" ]} : pyrow) !! None = None
   ∨ ∃ l, l ≠ [] ∧
          ({[ Some "a" := PStr "1"; Some "b" := PStr "" ]} : pyrow) !! None
          = Some (PList l)).
Proof.
  apply (read_csv_row_has_a_text_for_each_header_and_no_other_name
           Shape.sample_machine "C:\in\short.csv" ["a"; "b"]
           [ {[ Some "a" := PStr "1"; Some "b" := PStr "" ]} ]).
  - by vm_compute.
  - apply list_elem_of_here.
Defined.

(** ** The worksheet reader's rows *)

Lemma xlsx_row_names (headers : list string) (raw : list (option xl_value)) (k : string) :
  is_Some (xlsx_row headers raw !! k) ↔ k ∈ headers.
Proof.
  unfold xlsx_row.
  rewrite (foldl_insert_is_Some (λ p : nat * string, p.2)
             (λ p, cell_text (mjoin (raw !! p.1)))).
  rewrite lookup_empty, list_elem_of_fmap. split.
  - intros [(p & -> & (i & y & -> & Hy)%elem_of_lookup_imap) | []%is_Some_None].
    by eapply list_elem_of_lookup_2.
  - intros (i & Hi)%list_elem_of_lookup_1. left. exists (i, k). split; [done |].
    apply elem_of_lookup_imap. by exists i, k.
Qed.

Lemma xlsx_row_cell (headers : list string) (raw : list (option xl_value)) j h :
  headers !! j = Some h →
  (∀ j', j < j' → headers !! j' ≠ Some h) →
  xlsx_row headers raw !! h = Some (cell_text (mjoin (raw !! j))).
Proof.
  intros Hj Hlast. unfold xlsx_row.
  apply (foldl_insert_last (λ p : nat * string, p.2)
           (λ p, cell_text (mjoin (raw !! p.1))) (imap pair headers) ∅ j (j, h)).
  - by rewrite list_lookup_imap, Hj.
  - intros j' [i h'] Hlt. rewrite list_lookup_imap.
    destruct (headers !! j') as [y|] eqn:Hy; [| done].
    intros [= <- <-]. cbn. intros ->. by apply (Hlast j').
Qed.

(** What [_read_xlsx] makes of a worksheet: the headers are the texts of the
    first line (the empty text for an empty cell); every later line gives
    one row, in order, blank lines too; the columns of a row are the headers
    and no other; under a header the row has the text of the cell at the
    header's place, the empty text where the line is too short or the cell
    empty, and for a header that occurs twice the cell at its last place.
    Cells beyond the header line are not read. *)
Theorem read_xlsx_rows_follow_the_header_line
    (w : world) (path : string) (load_workbook : string → res sheet) (sh : sheet) :
  openpyxl w = Some load_workbook →
  load_workbook path = Ok sh →
  ∃ (headers : list string) (rows : list row),
    _read_xlsx w path = Ok (headers, rows) ∧
    headers = cell_text <$> hd [] sh ∧
    length rows = length sh - 1 ∧
    ∀ i raw (r : row), tl sh !! i = Some raw → rows !! i = Some r →
      (∀ k, is_Some (r !! k) ↔ k ∈ headers) ∧
      (∀ j h, headers !! j = Some h → (∀ j', j < j' → headers !! j' ≠ Some h) →
              r !! h = Some (cell_text (mjoin (raw !! j)))).
Proof.
  intros Hox Hload. unfold _read_xlsx. rewrite Hox, Hload. cbn [mbind res_bind].
  eexists _, _. split; [reflexivity |]. split; [reflexivity |]. split.
  - rewrite length_fmap. destruct sh; cbn; lia.
  - intros i raw r Hraw Hr. rewrite list_lookup_fmap, Hraw in Hr.
    injection Hr as <-. split.
    + intros k. apply xlsx_row_names.
    + intros j h. apply xlsx_row_cell.
Qed.

Lemma read_xlsx_rows_follow_the_header_line_witness :
  ∃ (headers : list string) (rows : list row),
    _read_xlsx Shape.sample_machine "C:\in\masked.xlsx" = Ok (headers, rows) ∧
    headers = cell_text <$> hd [] Shape.sample_sheet ∧
    length rows = length Shape.sample_sheet - 1 ∧
    ∀ i raw (r : row), tl Shape.sample_sheet !! i = Some raw → rows !! i = Some r →
      (∀ k, is_Some (r !! k) ↔ k ∈ headers) ∧
      (∀ j h, headers !! j = Some h → (∀ j', j < j' → headers !! j' ≠ Some h) →
              r !! h = Some (cell_text (mjoin (raw !! j)))).
Proof.
  apply (read_xlsx_rows_follow_the_header_line Shape.sample_machine "C:\in\masked.xlsx"
           (λ path, match ({[ "C:\in\masked.xlsx" := Shape.sample_sheet ]}
                             : gmap string sheet) !! path with
                    | Some sh => Ok sh
                    | None => Raise (FileNotFoundError path)
                    end)
           Shape.sample_sheet).
  - reflexivity.
  - reflexivity.
Defined.

(** ** The CSV writer's columns *)

Lemma dict_to_list_agree (headers : list string) (r r' : row) :
  Forall (λ h, default "" (r !! h) = default "" (r' !! h)) headers →
  DictWriter.dict_to_list headers r = DictWriter.dict_to_list headers r'.
Proof.
  intros Hagree. unfold DictWriter.dict_to_list.
  apply list_fmap_ext. intros i h Hh.
  rewrite Forall_forall in Hagree. apply Hagree. by eapply list_elem_of_lookup_2.
Qed.

(** [write_csv] looks at the rows only under the headers: two lists of rows
    that agree there (a missing cell counting as the empty text) give the
    same file, whatever else the rows hold. *)
Theorem write_csv_looks_at_header_cells_only
    (w : world) (path : string) (headers : list string) (rows rows' : list row) :
  Forall2 (λ r r' : row,
             Forall (λ h, default "" (r !! h) = default "" (r' !! h)) headers)
          rows rows' →
  write_csv w path headers rows = write_csv w path headers rows'.
Proof.
  intros Hagree. unfold write_csv, csv_text. do 2 f_equal.
  induction Hagree as [|r r' rows rows' Hr _ IH]; [done |].
  cbn [DictWriter.writerows]. by rewrite IH, (dict_to_list_agree headers r r').
Qed.

Lemma write_csv_looks_at_header_cells_only_witness :
  write_csv Example.empty_machine "C:\out\result.csv" ["户号"; "name"; "note"]
    Example.sample_rows
  = write_csv Example.empty_machine "C:\out\result.csv" ["户号"; "name"; "note"]
      [ {[ "户号" := "001"; "name" := "Li, Lei"; "note" := String Csv.QUOTE "x" ]};
        {[ "户号" := "002"; "name" := "";
           "note" := "two" +:+ Example.CRLF +:+ "lines" +:+ String Csv.CR "" ]};
        ∅ ].
Proof.
  apply (write_csv_looks_at_header_cells_only Example.empty_machine "C:\out\result.csv"
           ["户号"; "name"; "note"] Example.sample_rows).
  apply (bool_decide_unpack _). by vm_compute.
Defined.

(** ** The rows that come back from a written file *)

Lemma projection_fill (f : string → string) hs : ∀ d : pyrow,
  or_empty <$> foldl (λ (d : pyrow) p, <[Some p.1 := PStr p.2]> d) d (zip hs (f <$> hs))
  = foldl (λ (d : pyrow) key, <[Some key := PStr (f key)]> d) (or_empty <$> d) hs.
Proof.
  induction hs as [|x hs IH]; intros d; cbn [foldl zip zip_with fmap list_fmap]; [done |].
  rewrite IH. cbn [fst snd]. by rewrite fmap_insert, or_empty_text.
Qed.

Lemma next_dict_projection hs (r : row) :
  or_empty <$> DictReader.next_dict hs (DictWriter.dict_to_list hs r)
  = Shape.projection hs r.
Proof.
  unfold DictReader.next_dict, DictWriter.dict_to_list.
  rewrite length_fmap, Nat.ltb_irrefl. unfold DictReader.zip_dict, Shape.projection.
  rewrite (projection_fill (λ key, default "" (r !! key))). by rewrite fmap_empty.
Qed.

(** A dataset written by [write_csv] and read back by [_read_csv] comes back
    exactly as its cut to the header columns: each row read holds, for every
    header, the text of the row written (the empty text where that row had
    no cell) and holds nothing else, so that a column outside the header
    list is lost and no row gets a value under the key [None]. This holds on
    a machine that lets the file be written and whose [utf-8-sig] codec reads
    the written text back, for a dataset with at least one header whose
    header names and cells are within the reader's field limit. *)
Theorem csv_round_trip_gives_exactly_the_header_cells
    (w : world) (path : string) (headers : list string) (rows : list row) :
  writable w path = true →
  decode w utf_8_sig (BOM +:+ csv_text headers rows) = Some (csv_text headers rows) →
  headers ≠ [] →
  Forall Spec.fits headers →
  Forall (λ r : row, Forall (λ h, Spec.fits (default "" (r !! h))) headers) rows →
  Spec.written_then_read w path headers rows
  = Ok (headers, Shape.projection headers <$> rows).
Proof.
  intros Hw Hcodec Hne Hhs Hcells.
  unfold Spec.written_then_read, write_csv, open_write. rewrite Hw.
  assert (Hread : Csv.read (csv_text headers rows)
                  = Ok (headers :: (DictWriter.dict_to_list headers <$> rows))).
  { rewrite csv_text_written. apply read_written. constructor; [done |].
    apply Forall_fmap. eapply Forall_impl; [exact Hcells |].
    intros r Hr. unfold DictWriter.dict_to_list. by apply Forall_fmap. }
  unfold _read_csv. cbn [try_encodings].
  unfold read_csv_as at 1, open_read. cbn [files decode].
  rewrite lookup_insert_eq, Hcodec. cbn [mbind res_bind].
  rewrite Hread. cbn [mbind res_bind].
  rewrite dict_reader_written by done. cbn [default]. do 2 f_equal.
  rewrite <- list_fmap_compose. apply list_fmap_ext. intros i r _.
  apply next_dict_projection.
Qed.

Lemma csv_round_trip_gives_exactly_the_header_cells_witness :
  Spec.written_then_read Example.empty_machine "C:\out\result.csv"
    ["户号"; "name"; "note"] Example.sample_rows
  = Ok (["户号"; "name"; "note"],
        Shape.projection ["户号"; "name"; "note"] <$> Example.sample_rows).
Proof.
  apply (csv_round_trip_gives_exactly_the_header_cells Example.empty_machine
           "C:\out\result.csv" ["户号"; "name"; "note"] Example.sample_rows).
  - reflexivity.
  - by vm_compute.
  - done.
  - apply (bool_decide_unpack _). by vm_compute.
  - apply (bool_decide_unpack _). by vm_compute.
Defined.
